(** * pg.mayflower: a shallow embedding of [lib/PgMayflower.js]

    The development follows the source file:
    - [JsString]: JavaScript strings as sequences of UTF-16 code units, with
      the string operations the migrator uses ([trim], the global CRLF
      replace, the [sqlExt] regular expression, the default [sort]);
    - [Md5]: the digest behind [getHash];
    - [Pg]: the database capability [db.query_] as far as the migrator
      talks to it (the bookkeeping table with its two constraints and the
      transaction commands);
    - [Mayflower]: [SqlScript], [MigrationResult], [createMigrationsTable],
      [getAllScripts], [getScript], [migrate] and [migrateAll] in a state and
      exception monad over the world the generator functions act on: the
      migrator object, the database, the migrations directory, the heap
      holding the options object, the clock and the console;
    - [Constructor]: the constructor [PgMayflower] and the getter
      [schemaAndTable];
    - [Shapes], [Conditions]: predicates on strings, statements and
      worlds that the theorems are stated with;
    - [Demo]: a small concrete database to run the embedding on;
    - [Md5Facts], [JsStringFacts], [PgFacts], [MayflowerFacts]: what is
      proved of the above; [StringsMore], [LoaderMore], [TableMore],
      [RunsMore]: further properties of the fingerprint, of the loader,
      of the table and of the runs; [Scenarios]: runs on the concrete
      database. *)

From Stdlib Require Import String Ascii List NArith ZArith Bool Lia.
From Stdlib Require Import Permutation Sorted DecimalString.
Import ListNotations.

Set Implicit Arguments.

(* ====================================================================== *)
(** * JavaScript strings *)
(* ====================================================================== *)

Module JsString.

(** A JavaScript string is a finite sequence of 16-bit code units. *)
Definition jsstring := list N.

(** An ASCII literal as a JavaScript string. *)
Definition js (s : string) : jsstring :=
  map N_of_ascii (list_ascii_of_string s).

Fixpoint str_eqb (a b : jsstring) : bool :=
  match a, b with
  | [], [] => true
  | x :: a', y :: b' => N.eqb x y && str_eqb a' b'
  | _, _ => false
  end.

(** [x < y] on strings: code unit by code unit, a proper prefix first. *)
Fixpoint str_ltb (a b : jsstring) : bool :=
  match a, b with
  | _, [] => false
  | [], _ :: _ => true
  | x :: a', y :: b' =>
      if N.ltb x y then true
      else if N.eqb x y then str_ltb a' b' else false
  end.

Definition str_leb (a b : jsstring) : bool := negb (str_ltb b a).

(** [a <= b] in that order. *)
Definition str_le (a b : jsstring) : Prop := str_leb a b = true.

Definition CR : N := 13.
Definition LF : N := 10.

(** ECMAScript [LineTerminator]: LF, CR, LS, PS. *)
Definition is_line_terminator (c : N) : bool :=
  N.eqb c 0x000A || N.eqb c 0x000D || N.eqb c 0x2028 || N.eqb c 0x2029.

(** ECMAScript [WhiteSpace]: TAB, VT, FF, SP, NBSP, ZWNBSP and the
    space separators of Unicode. *)
Definition is_white_space (c : N) : bool :=
  N.eqb c 0x0009 || N.eqb c 0x000B || N.eqb c 0x000C || N.eqb c 0x0020
  || N.eqb c 0x00A0 || N.eqb c 0xFEFF || N.eqb c 0x1680
  || (N.leb 0x2000 c && N.leb c 0x200A)
  || N.eqb c 0x202F || N.eqb c 0x205F || N.eqb c 0x3000.

(** What [String.prototype.trim] strips at both ends. *)
Definition is_trimmed_char (c : N) : bool :=
  is_white_space c || is_line_terminator c.

Fixpoint trim_start (s : jsstring) : jsstring :=
  match s with
  | [] => []
  | c :: t => if is_trimmed_char c then trim_start t else s
  end.

(** [s.trim()] *)
Definition trim (s : jsstring) : jsstring :=
  rev (trim_start (rev (trim_start s))).

(** [s.replace(/\r\n/g, '\n')]: one pass from the left, every match of
    CR LF replaced by LF, the search resuming after the match. *)
Fixpoint replace_crlf (s : jsstring) : jsstring :=
  match s with
  | [] => []
  | c :: t =>
      match t with
      | d :: t' =>
          if N.eqb c CR && N.eqb d LF then LF :: replace_crlf t'
          else c :: replace_crlf t
      | [] => [c]
      end
  end.

(** Does the string contain CR CR LF? *)
Fixpoint has_cr_crlf (s : jsstring) : bool :=
  match s with
  | [] => false
  | c :: t =>
      (N.eqb c CR
       && match t with
          | d :: e :: _ => N.eqb d CR && N.eqb e LF
          | _ => false
          end)
      || has_cr_crlf t
  end.

(** The regular expression [/.+\.sql$/] of [getAllScripts].

    [rx_suffix] is [\.sql$]: the rest of the input is exactly ".sql".
    [rx_from] is the whole pattern matched at the start of the input: one
    or more characters other than line terminators, then [rx_suffix].
    [sqlExt_test] is [sqlExt.test(s)]: a match starting anywhere. *)
Definition rx_suffix (s : jsstring) : bool := str_eqb s (js ".sql").

Fixpoint rx_from (s : jsstring) : bool :=
  match s with
  | [] => false
  | c :: t => negb (is_line_terminator c) && (rx_suffix t || rx_from t)
  end.

Fixpoint sqlExt_test (s : jsstring) : bool :=
  match s with
  | [] => false
  | _ :: t => rx_from s || sqlExt_test t
  end.

(** [names.sort()] with the default comparison, which orders strings by
    their code units.  That order is total on strings, so the sorted
    array does not depend on the engine's algorithm; insertion is used
    here. *)
Fixpoint sort_insert (x : jsstring) (l : list jsstring) : list jsstring :=
  match l with
  | [] => [x]
  | y :: l' => if str_leb x y then x :: l else y :: sort_insert x l'
  end.

Fixpoint sort (l : list jsstring) : list jsstring :=
  match l with
  | [] => []
  | x :: l' => sort_insert x (sort l')
  end.

(** Decimal rendering of a number, as [n + ' ...'] does. *)
Definition of_nat (n : nat) : jsstring :=
  js (NilEmpty.string_of_uint (Nat.to_uint n)).

(** UTF-8 encoding of a string, as [hash.update(string)] feeds it to the
    digest: a surrogate pair is one code point, a lone surrogate is
    U+FFFD.  (On ASCII text every encoding Node has used here agrees.) *)
Definition is_high_surrogate (c : N) : bool := N.leb 0xD800 c && N.leb c 0xDBFF.
Definition is_low_surrogate (c : N) : bool := N.leb 0xDC00 c && N.leb c 0xDFFF.

Definition utf8_of_code_point (p : N) : list N :=
  if N.ltb p 0x80 then [p]
  else if N.ltb p 0x800 then
    [N.lor 0xC0 (N.shiftr p 6); N.lor 0x80 (N.land p 0x3F)]
  else if N.ltb p 0x10000 then
    [N.lor 0xE0 (N.shiftr p 12);
     N.lor 0x80 (N.land (N.shiftr p 6) 0x3F);
     N.lor 0x80 (N.land p 0x3F)]
  else
    [N.lor 0xF0 (N.shiftr p 18);
     N.lor 0x80 (N.land (N.shiftr p 12) 0x3F);
     N.lor 0x80 (N.land (N.shiftr p 6) 0x3F);
     N.lor 0x80 (N.land p 0x3F)].

Fixpoint utf8 (s : jsstring) : list N :=
  match s with
  | [] => []
  | c :: t =>
      if is_high_surrogate c then
        match t with
        | d :: t' =>
            if is_low_surrogate d then
              utf8_of_code_point
                (0x10000 + N.shiftl (c - 0xD800) 10 + (d - 0xDC00)) ++ utf8 t'
            else utf8_of_code_point 0xFFFD ++ utf8 t
        | [] => utf8_of_code_point 0xFFFD
        end
      else if is_low_surrogate c then utf8_of_code_point 0xFFFD ++ utf8 t
      else utf8_of_code_point c ++ utf8 t
  end.

End JsString.

(* ====================================================================== *)
(** * MD5 ([Crypto.createHash('md5')]) *)
(* ====================================================================== *)

Module Md5.

Local Open Scope Z_scope.

Definition w32 (x : Z) : Z := x mod 2 ^ 32.

Definition rotl32 (x : Z) (c : Z) : Z :=
  w32 (Z.lor (Z.shiftl x c) (Z.shiftr x (32 - c))).

Definition not32 (x : Z) : Z := Z.lxor x 0xFFFFFFFF.

(** [floor (2^32 * abs (sin (i + 1)))] for [i = 0 .. 63]. *)
Definition K : list Z :=
  [ 0xd76aa478; 0xe8c7b756; 0x242070db; 0xc1bdceee;
    0xf57c0faf; 0x4787c62a; 0xa8304613; 0xfd469501;
    0x698098d8; 0x8b44f7af; 0xffff5bb1; 0x895cd7be;
    0x6b901122; 0xfd987193; 0xa679438e; 0x49b40821;
    0xf61e2562; 0xc040b340; 0x265e5a51; 0xe9b6c7aa;
    0xd62f105d; 0x02441453; 0xd8a1e681; 0xe7d3fbc8;
    0x21e1cde6; 0xc33707d6; 0xf4d50d87; 0x455a14ed;
    0xa9e3e905; 0xfcefa3f8; 0x676f02d9; 0x8d2a4c8a;
    0xfffa3942; 0x8771f681; 0x6d9d6122; 0xfde5380c;
    0xa4beea44; 0x4bdecfa9; 0xf6bb4b60; 0xbebfbc70;
    0x289b7ec6; 0xeaa127fa; 0xd4ef3085; 0x04881d05;
    0xd9d4d039; 0xe6db99e5; 0x1fa27cf8; 0xc4ac5665;
    0xf4292244; 0x432aff97; 0xab9423a7; 0xfc93a039;
    0x655b59c3; 0x8f0ccc92; 0xffeff47d; 0x85845dd1;
    0x6fa87e4f; 0xfe2ce6e0; 0xa3014314; 0x4e0811a1;
    0xf7537e82; 0xbd3af235; 0x2ad7d2bb; 0xeb86d391 ].

Definition shifts : list Z :=
  [ 7; 12; 17; 22; 7; 12; 17; 22; 7; 12; 17; 22; 7; 12; 17; 22;
    5;  9; 14; 20; 5;  9; 14; 20; 5;  9; 14; 20; 5;  9; 14; 20;
    4; 11; 16; 23; 4; 11; 16; 23; 4; 11; 16; 23; 4; 11; 16; 23;
    6; 10; 15; 21; 6; 10; 15; 21; 6; 10; 15; 21; 6; 10; 15; 21 ].

Record regs := Regs { rA : Z; rB : Z; rC : Z; rD : Z }.

Definition init : regs :=
  Regs 0x67452301 0xefcdab89 0x98badcfe 0x10325476.

(** One of the 64 operations on a block of sixteen words [M]. *)
Definition step (M : list Z) (r : regs) (i : nat) : regs :=
  let '(Regs a b c d) := r in
  let iz := Z.of_nat i in
  let '(f, g) :=
    if iz <? 16 then (Z.lor (Z.land b c) (Z.land (not32 b) d), iz)
    else if iz <? 32 then
      (Z.lor (Z.land d b) (Z.land (not32 d) c), (5 * iz + 1) mod 16)
    else if iz <? 48 then (Z.lxor b (Z.lxor c d), (3 * iz + 5) mod 16)
    else (Z.lxor c (Z.lor b (not32 d)), (7 * iz) mod 16) in
  let f' := w32 (f + a + nth i K 0 + nth (Z.to_nat g) M 0) in
  Regs d (w32 (b + rotl32 f' (nth i shifts 0))) b c.

Definition word_le (b0 b1 b2 b3 : Z) : Z :=
  b0 + 256 * b1 + 65536 * b2 + 16777216 * b3.

Fixpoint words_le (bytes : list Z) : list Z :=
  match bytes with
  | b0 :: b1 :: b2 :: b3 :: t => word_le b0 b1 b2 b3 :: words_le t
  | _ => []
  end.

Definition bytes_le (n : nat) (x : Z) : list Z :=
  map (fun k => (x / 256 ^ Z.of_nat k) mod 256) (seq 0 n).

Definition block (r : regs) (bytes : list Z) : regs :=
  let r' := fold_left (step (words_le bytes)) (seq 0 64) r in
  Regs (w32 (rA r + rA r')) (w32 (rB r + rB r'))
       (w32 (rC r + rC r')) (w32 (rD r + rD r')).

(** The message, a 1 bit, zeros up to 56 modulo 64 bytes, then the
    length in bits on 64 bits. *)
Definition pad (msg : list Z) : list Z :=
  let len := Z.of_nat (length msg) in
  let zeros := Z.to_nat ((55 - len) mod 64) in
  msg ++ [0x80] ++ repeat 0 zeros ++ bytes_le 8 ((8 * len) mod 2 ^ 64).

Fixpoint blocks (fuel : nat) (r : regs) (bytes : list Z) : regs :=
  match fuel, bytes with
  | S fuel', _ :: _ => blocks fuel' (block r (firstn 64 bytes)) (skipn 64 bytes)
  | _, _ => r
  end.

(** The sixteen bytes of the digest. *)
Definition digest (msg : list Z) : list Z :=
  let p := pad msg in
  let r := blocks (length p) init p in
  bytes_le 4 (rA r) ++ bytes_le 4 (rB r) ++ bytes_le 4 (rC r) ++ bytes_le 4 (rD r).

Definition hex_digit (d : Z) : N :=
  if d <? 10 then Z.to_N (48 + d) else Z.to_N (87 + d).

(** [md5.digest('hex')]: two lower-case digits per byte. *)
Definition hex (bytes : list Z) : JsString.jsstring :=
  flat_map (fun b => [hex_digit (b / 16); hex_digit (b mod 16)]) bytes.

(** [md5.update(s); md5.digest('hex')] for a string [s]. *)
Definition md5_hex (s : JsString.jsstring) : JsString.jsstring :=
  hex (digest (map Z.of_N (JsString.utf8 s))).

End Md5.

Import JsString.

(* ====================================================================== *)
(** * The database capability *)
(* ====================================================================== *)

(** What the migrator sees of PostgreSQL through [db.query_]: the
    bookkeeping table, which the migrator creates with a primary key on
    [hash] and a unique constraint on [filename], the rest of the database
    (opaque, changed only by migration scripts), and one connection with
    its open transaction.

    What the model fixes:
    - a statement that fails changes nothing, and the only failures are a
      missing or duplicate relation, a violated constraint and whatever a
      migration script reports; the connection itself never fails;
    - the schema of the migrator exists and its table name is one that
      PostgreSQL stores as it is written, so that the catalog query
      finds the table exactly when it is there and the table can be
      created when it is not;
    - a migration script acts on the content of the database, the
      bookkeeping table included, and may end the transaction it is sent
      in (a COMMIT or a ROLLBACK in its text); a COMMIT sent by the
      migrator is accepted;
    - the columns are not limited in length;
    - the rows of the catalog query are not represented, only their
      number, which is all the migrator reads. *)

Module Pg.

(** A row of the bookkeeping table. *)
Record row := Row {
  row_hash : jsstring;
  row_filename : jsstring;
  row_execution_date : Z;
  row_duration : Z
}.

Inductive pg_error :=
| undefined_table                       (* relation does not exist *)
| duplicate_table                       (* relation already exists *)
| unique_violation (constraint : jsstring)
| script_error (message : jsstring).

(** [{ rowCount, rows }] *)
Record result := Result { rowCount : nat; rows : list row }.

(** The statements the migrator sends, one constructor per call of
    [db.query_] in the source. *)
Inductive query :=
| QTableExists (schema table : jsstring)
    (* SELECT * FROM information_schema.tables
       WHERE table_schema = $1 AND table_name = $2; *)
| QCreateTable
    (* CREATE TABLE ... (hash, filename, execution_date, duration,
       CONSTRAINT pk_migrations PRIMARY KEY (hash),
       CONSTRAINT ux_migrations_filename UNIQUE (filename)); *)
| QSelectByHash (h : jsstring)
    (* select * from ... where hash = $1; *)
| QSelectByFilename (n : jsstring)
    (* select * from ... where filename = $1; *)
| QUpdateFilename (n h : jsstring)
    (* update ... set filename = $1 where hash = $2; *)
| QBegin
| QScript (sql : jsstring)
    (* the text of a migration script *)
| QUpdateByFilename (h : jsstring) (date duration : Z) (n : jsstring)
    (* update ... set hash = $1, execution_date = $2, duration = $3
       where filename = $4; *)
| QInsert (h : jsstring) (date duration : Z) (n : jsstring)
    (* insert into ... (hash, execution_date, duration, filename)
       values ($1, $2, $3, $4); *)
| QCommit
| QRollback.

(** Statements that only read: the catalog query and the two lookups. *)
Definition is_select (q : query) : bool :=
  match q with
  | QTableExists _ _ | QSelectByHash _ | QSelectByFilename _ => true
  | _ => false
  end.

Definition is_script (q : query) : bool :=
  match q with QScript _ => true | _ => false end.

(** Statements that write the bookkeeping table or create it. *)
Definition is_ledger_write (q : query) : bool :=
  match q with
  | QCreateTable | QUpdateFilename _ _
  | QUpdateByFilename _ _ _ _ | QInsert _ _ _ _ => true
  | _ => false
  end.

Fixpoint distinct (l : list jsstring) : bool :=
  match l with
  | [] => true
  | x :: t => negb (existsb (str_eqb x) t) && distinct t
  end.

(** The two constraints of the table. *)
Definition check_constraints (rs : list row) : option pg_error :=
  if negb (distinct (map row_hash rs)) then
    Some (unique_violation (js "pk_migrations"))
  else if negb (distinct (map row_filename rs)) then
    Some (unique_violation (js "ux_migrations_filename"))
  else None.

Definition has_hash (h : jsstring) (r : row) : bool := str_eqb (row_hash r) h.
Definition has_filename (n : jsstring) (r : row) : bool :=
  str_eqb (row_filename r) n.

(** The rows after [update ... set filename = n where hash = h]. *)
Definition update_filename (n h : jsstring) (rs : list row) : list row :=
  map (fun r => if has_hash h r
                then Row (row_hash r) n (row_execution_date r) (row_duration r)
                else r) rs.

(** The rows after [update ... set hash = h, execution_date = date,
    duration = dur where filename = n]. *)
Definition update_by_filename (h : jsstring) (date dur : Z) (n : jsstring)
    (rs : list row) : list row :=
  map (fun r => if has_filename n r then Row h (row_filename r) date dur
                else r) rs.

Section Database.

(** The state of the database apart from the bookkeeping table. *)
Variable U : Type.

(** A database: the bookkeeping table, absent until created, and the
    rest. *)
Record content := Content { ledger : option (list row); user : U }.

(** The effect of a migration script on the database. *)
Variable run_script : jsstring -> content -> pg_error + content.

(** Whether a migration script, run on a working state, ends the
    transaction it is sent in: [None] when it leaves the transaction
    alone; [Some k] when its text ends it, [k] being what is committed
    when the script returns or fails, and so what a ROLLBACK sent after
    the script returns to. *)
Variable script_ends : jsstring -> content -> option content.

Definition no_rows (n : nat) : result := Result n [].

Definition write_ledger (c : content) (rs : list row) (n : nat)
  : pg_error + (result * content) :=
  match check_constraints rs with
  | Some e => inl e
  | None => inr (no_rows n, Content (Some rs) (user c))
  end.

(** A statement other than a transaction command, on the working state. *)
Definition exec (q : query) (c : content) : pg_error + (result * content) :=
  match q with
  | QTableExists _ _ =>
      inr (no_rows (match ledger c with Some _ => 1 | None => 0 end), c)
  | QCreateTable =>
      match ledger c with
      | Some _ => inl duplicate_table
      | None => inr (no_rows 0, Content (Some []) (user c))
      end
  | QSelectByHash h =>
      match ledger c with
      | None => inl undefined_table
      | Some rs =>
          let found := filter (has_hash h) rs in
          inr (Result (length found) found, c)
      end
  | QSelectByFilename n =>
      match ledger c with
      | None => inl undefined_table
      | Some rs =>
          let found := filter (has_filename n) rs in
          inr (Result (length found) found, c)
      end
  | QUpdateFilename n h =>
      match ledger c with
      | None => inl undefined_table
      | Some rs =>
          write_ledger c (update_filename n h rs)
            (length (filter (has_hash h) rs))
      end
  | QUpdateByFilename h date dur n =>
      match ledger c with
      | None => inl undefined_table
      | Some rs =>
          write_ledger c (update_by_filename h date dur n rs)
            (length (filter (has_filename n) rs))
      end
  | QInsert h date dur n =>
      match ledger c with
      | None => inl undefined_table
      | Some rs => write_ledger c (rs ++ [Row h n date dur]) 1
      end
  | QScript sql =>
      match run_script sql c with
      | inl e => inl e
      | inr c' => inr (no_rows 0, c')
      end
  | QBegin | QCommit | QRollback => inr (no_rows 0, c)
  end.

(** The server with one connection: the working state, the state to
    return to while a transaction is open, every statement received so
    far, and whether the connection has been closed. *)
Record db := Db {
  current : content;
  txn : option content;
  log : list query;
  ended : bool
}.

(** What a new connection would see. *)
Definition committed (d : db) : content :=
  match txn d with Some c => c | None => current d end.

(** The state a ROLLBACK returns to once a statement has been received:
    a migration script that ends the transaction moves it to what the
    script has committed; any other statement leaves it. *)
Definition txn_after (q : query) (d : db) : option content :=
  match q with
  | QScript sql =>
      match script_ends sql (current d) with
      | Some k => Some k
      | None => txn d
      end
  | _ => txn d
  end.

(** [db.query_]: BEGIN opens a transaction unless one is open, COMMIT
    keeps the working state, ROLLBACK returns to the state at BEGIN, or
    to what a script has committed since; any other statement runs on
    the working state. *)
Definition db_query (q : query) (d : db) : (pg_error + result) * db :=
  let lg := log d ++ [q] in
  match q with
  | QBegin =>
      (inr (no_rows 0),
       Db (current d)
          (match txn d with Some c => Some c | None => Some (current d) end)
          lg (ended d))
  | QCommit => (inr (no_rows 0), Db (current d) None lg (ended d))
  | QRollback => (inr (no_rows 0), Db (committed d) None lg (ended d))
  | _ =>
      match exec q (current d) with
      | inl e => (inl e, Db (current d) (txn_after q d) lg (ended d))
      | inr (r, c') => (inr r, Db c' (txn_after q d) lg (ended d))
      end
  end.

(** [db.connect_()]: a fresh session. *)
Definition db_connect (d : db) : db := Db (committed d) None (log d) false.

(** [db.end()]: work of an open transaction is lost. *)
Definition db_end (d : db) : db := Db (committed d) None (log d) true.

End Database.

End Pg.

(* ====================================================================== *)
(** * PgMayflower *)
(* ====================================================================== *)

Module Mayflower.

Import Pg.

(** ** SqlScript and getHash *)

(** [getHash]: the md5 digest in hexadecimal, cut by
    [/^(.{8})(.{4})(.{4})(.{4})(.{12})$/] and joined with dashes. *)
Definition getHash (sql : jsstring) : jsstring :=
  let d := Md5.md5_hex sql in
  let dash := js "-" in
  firstn 8 d ++ dash ++ firstn 4 (skipn 8 d) ++ dash
  ++ firstn 4 (skipn 12 d) ++ dash ++ firstn 4 (skipn 16 d) ++ dash
  ++ firstn 12 (skipn 20 d).

Record SqlScript := mkSqlScript {
  name : jsstring;
  sql : jsstring;
  hash : jsstring
}.

(** [new SqlScript(name, sql)] *)
Definition new_SqlScript (name sql : jsstring) : SqlScript :=
  mkSqlScript name (trim sql) (getHash (replace_crlf sql)).

(** ** MigrationResult *)

Record MigrationResult := mkMigrationResult {
  res_name : jsstring;
  skipped : bool;
  runtime : Z;
  message : jsstring
}.

(** [new MigrationResult(name)] *)
Definition new_MigrationResult (name : jsstring) : MigrationResult :=
  mkMigrationResult name true 0 [].

(** ** The options object *)

(** The properties of an options object the migrator reads, by their
    truth value; [output] may be undefined. *)
Record options := mkOptions {
  preview : bool;
  force : bool;
  output : option bool
}.

(** [{}] *)
Definition empty_object : options := mkOptions false false None.

(** Objects live in a heap and are passed by reference. *)
Definition heap := list options.

Definition heap_get (l : nat) (h : heap) : options := nth l h empty_object.

Fixpoint heap_set (l : nat) (o : options) (h : heap) : heap :=
  match l, h with
  | _, [] => []
  | O, _ :: t => o :: t
  | S l', x :: t => x :: heap_set l' o t
  end.

(** The argument of [migrateAll]: an object, or anything else
    (undefined, null, a number, ...). *)
Inductive argument :=
| not_an_object
| object_at (l : nat).

(** ** Errors and the file system *)

Inductive js_error :=
| Error (message : jsstring)      (* new Error(message) *)
| DbError (e : pg_error)          (* a rejected db.query_ *)
| FsError (path : jsstring)       (* a failed readdir or readFile *)
| TypeError.

(** The migrations directory: its listing and the decoded text of its
    files, [None] where reading fails. *)
Record filesystem := mkFs {
  readdir : option (list jsstring);
  readfile : jsstring -> option jsstring
}.

(** A call returns or throws. *)
Inductive outcome (A : Type) :=
| Return (a : A)
| Throw (e : js_error).
Arguments Throw {A} e.

Section Migrator.

Variable U : Type.
Variable run_script : jsstring -> content U -> pg_error + content U.
Variable script_ends : jsstring -> content U -> option (content U).

(** The duration the timer around a script's statement reports, in
    milliseconds, rounded. *)
Variable elapsed : jsstring -> content U -> Z.

(** ** The world of a run *)

Record world := World {
  directory : jsstring;            (* this.directory *)
  table : jsstring;                (* this.table *)
  schema : jsstring;               (* this.schema *)
  _tableExists : bool;             (* this._tableExists *)
  database : db U;
  fs : filesystem;
  objects : heap;
  clock : Z;                       (* new Date() *)
  console : list jsstring          (* console.log *)
}.

Definition with_tableExists (b : bool) (w : world) : world :=
  World (directory w) (table w) (schema w) b (database w) (fs w)
        (objects w) (clock w) (console w).

Definition with_database (d : db U) (w : world) : world :=
  World (directory w) (table w) (schema w) (_tableExists w) d (fs w)
        (objects w) (clock w) (console w).

Definition with_objects (h : heap) (w : world) : world :=
  World (directory w) (table w) (schema w) (_tableExists w) (database w)
        (fs w) h (clock w) (console w).

Definition with_console (c : list jsstring) (w : world) : world :=
  World (directory w) (table w) (schema w) (_tableExists w) (database w)
        (fs w) (objects w) (clock w) c.

(** ** Computations that may throw *)

Definition M (A : Type) : Type := world -> outcome A * world.

Definition ret {A} (a : A) : M A := fun w => (Return a, w).

Definition throw {A} (e : js_error) : M A := fun w => (Throw e, w).

Definition bind {A B} (m : M A) (k : A -> M B) : M B :=
  fun w =>
    match m w with
    | (Return a, w') => k a w'
    | (Throw e, w') => (Throw e, w')
    end.

(** [try { m } catch (ex) { handler ex }] *)
Definition try_catch {A} (m : M A) (handler : js_error -> M A) : M A :=
  fun w =>
    match m w with
    | (Return a, w') => (Return a, w')
    | (Throw e, w') => handler e w'
    end.

Definition gets {A} (f : world -> A) : M A := fun w => (Return (f w), w).

Definition modify (f : world -> world) : M unit := fun w => (Return tt, f w).

Notation "x <- m ;; k" := (bind m (fun x => k))
  (at level 61, m at next level, right associativity).
Notation "m ;;; k" := (bind m (fun _ => k))
  (at level 61, right associativity).

(** [yield db.query_(...)] *)
Definition query_ (q : query) : M result :=
  fun w =>
    match db_query run_script script_ends q (database w) with
    | (inr r, d) => (Return r, with_database d w)
    | (inl e, d) => (Throw (DbError e), with_database d w)
    end.

(** A property of the options object behind a reference. *)
Definition option_of {A} (f : options -> A) (l : nat) : M A :=
  gets (fun w => f (heap_get l (objects w))).

(** ** createMigrationsTable *)

Definition createMigrationsTable (opts : nat) : M unit :=
  exists_ <- gets _tableExists ;;
  if exists_ then ret tt
  else
    s <- gets schema ;;
    t <- gets table ;;
    result <- query_ (QTableExists s t) ;;
    if 0 <? rowCount result then modify (with_tableExists true)
    else
      p <- option_of preview opts ;;
      if p then ret tt
      else
        query_ QCreateTable ;;;
        modify (with_tableExists true).

(** ** getScript and getAllScripts *)

Definition getScript (n : jsstring) : M SqlScript :=
  fun w =>
    match readfile (fs w) n with
    | Some text => (Return (new_SqlScript n text), w)
    | None => (Throw (FsError n), w)
    end.

Definition readDir : M (list jsstring) :=
  fun w =>
    match readdir (fs w) with
    | Some files => (Return files, w)
    | None => (Throw (FsError (directory w)), w)
    end.

(** A string is truthy when it is not empty. *)
Definition truthy (s : jsstring) : bool :=
  match s with [] => false | _ => true end.

(** The second loop of [getAllScripts], from index [i] on. *)
Fixpoint load_scripts (names : list jsstring) (scripts : list SqlScript)
  : M (list SqlScript) :=
  match names with
  | [] => ret scripts
  | n :: names' =>
      s <- getScript n ;;
      load_scripts names'
        (if truthy (sql s) then scripts ++ [s] else scripts)
  end.

Definition getAllScripts : M (list SqlScript) :=
  files <- readDir ;;
  let names := sort (filter sqlExt_test files) in
  load_scripts names [].

(** ** migrate *)

Definition rename_message (script : SqlScript) : jsstring :=
  js "Filename has changed in the database; updating " ++ name script.

Definition conflict_message (script : SqlScript) : jsstring :=
  js "Failed to migrate: " ++ name script ++ js " (Hash: " ++ hash script
  ++ js ") - the file was already migrated in the past, to force migration use options.force".

Definition success_message (script : SqlScript) : jsstring :=
  js "Successfully migrated " ++ name script.

(** [{ rowCount: 0 }] *)
Definition pretend_empty : result := Result 0 [].

Definition migrate (opts : nat) (script : SqlScript) : M MigrationResult :=
  let res := new_MigrationResult (name script) in
  createMigrationsTable opts ;;;
  te <- gets _tableExists ;;
  p <- option_of preview opts ;;
  sqlResult <-
    (if negb te && p then ret pretend_empty
     else query_ (QSelectByHash (hash script))) ;;
  if 0 <? rowCount sqlResult then
    (* migration has already been applied *)
    match rows sqlResult with
    | [] => throw TypeError
    | r :: _ =>
        if negb (str_eqb (row_filename r) (name script)) then
          let res := mkMigrationResult (res_name res) (skipped res)
                       (runtime res) (rename_message script) in
          p <- option_of preview opts ;;
          (if negb p
           then query_ (QUpdateFilename (name script) (hash script)) ;;; ret tt
           else ret tt) ;;;
          ret res
        else ret res
    end
  else
    (* check for previous migration by filename *)
    te <- gets _tableExists ;;
    p <- option_of preview opts ;;
    sqlResult <-
      (if negb te && p then ret pretend_empty
       else query_ (QSelectByFilename (name script))) ;;
    exists_ <-
      (if 0 <? rowCount sqlResult then
         f <- option_of force opts ;;
         if negb f then throw (Error (conflict_message script))
         else ret true
       else ret false) ;;
    (* begin migration transaction *)
    query_ QBegin ;;;
    before <- gets (fun w => current (database w)) ;;
    try_catch
      (query_ (QScript (sql script)) ;;;
       let res := mkMigrationResult (res_name res) (skipped res)
                    (elapsed (sql script) before) (message res) in
       (* mark migration as applied in the database *)
       te <- gets _tableExists ;;
       p <- option_of preview opts ;;
       (if te && negb p then
          date <- gets clock ;;
          query_ (if exists_ : bool
                 then QUpdateByFilename (hash script) date (runtime res)
                        (name script)
                 else QInsert (hash script) date (runtime res) (name script))
          ;;; ret tt
        else ret tt) ;;;
       p <- option_of preview opts ;;
       query_ (if p then QRollback else QCommit) ;;;
       ret (mkMigrationResult (res_name res) false (runtime res)
              (success_message script)))
      (fun ex =>
         query_ QRollback ;;;
         throw ex).

(** ** migrateAll *)

(** The loop over the scripts, from index [i] on. *)
Fixpoint migrate_each (opts : nat) (scripts : list SqlScript)
    (results : list MigrationResult) : M (list MigrationResult) :=
  match scripts with
  | [] => ret results
  | s :: scripts' =>
      r <- migrate opts s ;;
      migrate_each opts scripts' (results ++ [r])
  end.

Definition console_log (s : jsstring) : M unit :=
  modify (fun w => with_console (console w ++ [s]) w).

(** The loop over the results: the number of skipped ones, their
    messages printed on the way. *)
Fixpoint report (opts : nat) (results : list MigrationResult) (n : nat)
  : M nat :=
  match results with
  | [] => ret n
  | r :: results' =>
      let n := if skipped r then S n else n in
      out <- option_of output opts ;;
      (if truthy (message r) && match out with Some b => b | None => false end
       then console_log (message r)
       else ret tt) ;;;
      report opts results' n
  end.

Definition is_some {A} (o : option A) : bool :=
  match o with Some _ => true | None => false end.

(** The block under [//default options]: the reference [options] holds
    afterwards, its [output] set when it was undefined. *)
Definition default_options (arg : argument) : M nat :=
  opts <-
    (match arg with
     | object_at l => ret l
     | not_an_object =>
         (* options = {} *)
         l <- gets (fun w => length (objects w)) ;;
         modify (fun w => with_objects (objects w ++ [empty_object]) w) ;;;
         ret l
     end) ;;
  out <- option_of output opts ;;
  (if is_some out then ret tt
   else
     (* options.output = true *)
     modify (fun w =>
       let o := heap_get opts (objects w) in
       with_objects
         (heap_set opts (mkOptions (preview o) (force o) (Some true))
            (objects w)) w)) ;;;
  ret opts.

Definition migrateAll (arg : argument) : M (list MigrationResult) :=
  opts <- default_options arg ;;
  scripts <- getAllScripts ;;
  modify (fun w => with_database (db_connect (database w)) w) ;;;
  attempt <-
    try_catch
      (results <- migrate_each opts scripts [] ;; ret (inr results))
      (fun ex => ret (inl ex)) ;;
  modify (fun w => with_database (db_end (database w)) w) ;;;
  match attempt with
  | inl error => throw error
  | inr results =>
      n <- report opts results 0 ;;
      out <- option_of output opts ;;
      (if match out with Some b => b | None => false end && (0 <? n)
       then console_log
              (of_nat n ++ js " previously applied migrations were skipped.")
       else ret tt) ;;;
      ret results
  end.

(** ** Observations on a run *)

(** The statements the database received between two states. *)
Definition issued (w w' : world) : list query :=
  skipn (length (log (database w))) (log (database w')).

(** The bookkeeping table as the connection sees it. *)
Definition ledger_of (w : world) : option (list row) :=
  ledger (current (database w)).

(** What one name contributes to the scripts [getAllScripts] loads. *)
Definition loaded (w : world) (n : jsstring) : list SqlScript :=
  match readfile (fs w) n with
  | Some text => if truthy (trim text) then [new_SqlScript n text] else []
  | None => []
  end.

Definition loads_nonempty (w : world) (n : jsstring) : bool :=
  match readfile (fs w) n with
  | Some text => truthy (trim text)
  | None => false
  end.

(** Whether [migrate] gets as far as sending the script: the table is
    not there yet, or it has no row for the fingerprint and either none
    for the filename or [force] is set.  [preview] plays no part. *)
Definition sends_script (l : nat) (s : SqlScript) (w : world) : bool :=
  match ledger_of w with
  | None => negb (_tableExists w)
  | Some rs =>
      match filter (has_hash (hash s)) rs with
      | _ :: _ => false
      | [] =>
          match filter (has_filename (name s)) rs with
          | [] => true
          | _ :: _ => force (heap_get l (objects w))
          end
      end
  end.

End Migrator.

End Mayflower.

(* ====================================================================== *)
(** * The constructor *)
(* ====================================================================== *)

Module Constructor.

Import Pg Mayflower.

(** The [options] argument of [PgMayflower]: each property is a string
    or undefined. *)
Record settings := mkSettings {
  set_connectionString : option jsstring;
  set_directory : option jsstring;
  set_table : option jsstring;
  set_schema : option jsstring
}.

(** [{}] *)
Definition no_settings : settings := mkSettings None None None None.

(** [a || b] for [a] a string or undefined: the empty string is falsy. *)
Definition or_string (a : option jsstring) (b : jsstring) : jsstring :=
  match a with
  | Some (c :: s) => c :: s
  | _ => b
  end.

(** [a || b] where [b] may be undefined as well. *)
Definition or_undefined (a b : option jsstring) : option jsstring :=
  match a with
  | Some (c :: s) => Some (c :: s)
  | _ => b
  end.

(** The fields of a migrator. *)
Record PgMayflower := mkPgMayflower {
  this_connectionString : option jsstring;
  this_directory : jsstring;
  this_table : jsstring;
  this_schema : jsstring;
  this_tableExists : bool
}.

(** [new PgMayflower(options)], where [DATABASE_URL] is
    [process.env.DATABASE_URL] and [cwd_migrations] is
    [Path.join(process.cwd(), 'migrations')]. *)
Definition new_PgMayflower (options : option settings)
    (DATABASE_URL : option jsstring) (cwd_migrations : jsstring)
  : PgMayflower :=
  let options := match options with Some o => o | None => no_settings end in
  mkPgMayflower
    (or_undefined (set_connectionString options) DATABASE_URL)
    (or_string (set_directory options) cwd_migrations)
    (or_string (set_table options) (js "migrations"))
    (or_string (set_schema options) (js "public"))
    false.

(** The getter [schemaAndTable]. *)
Definition schemaAndTable (this : PgMayflower) : jsstring :=
  this_schema this ++ js "." ++ this_table this.

(** The world of the runs of a migrator. *)
Definition world_of {U : Type} (this : PgMayflower) (d : db U)
    (files : filesystem) (objs : heap) (now : Z) (out : list jsstring)
  : world U :=
  World (this_directory this) (this_table this) (this_schema this)
        (this_tableExists this) d files objs now out.

End Constructor.

(* ====================================================================== *)
(** * Shapes of strings and statements *)
(* ====================================================================== *)

Module Shapes.

Import Pg.

(** [[0-9a-f]] *)
Definition is_hex_digit (c : N) : bool :=
  (N.leb 48 c && N.leb c 57) || (N.leb 97 c && N.leb c 102).

(** [[0-9a-f]{n}] at the start of [s]: what follows it. *)
Fixpoint take_hex (n : nat) (s : jsstring) : option jsstring :=
  match n with
  | O => Some s
  | S n' =>
      match s with
      | c :: t => if is_hex_digit c then take_hex n' t else None
      | [] => None
      end
  end.

(** [-] at the start of [s]: what follows it. *)
Definition take_dash (s : jsstring) : option jsstring :=
  match s with
  | c :: t => if N.eqb c 45 then Some t else None
  | [] => None
  end.

Definition and_then (o : option jsstring) (f : jsstring -> option jsstring)
  : option jsstring :=
  match o with Some s => f s | None => None end.

(** [/^[0-9a-f]{8}-[0-9a-f]{4}-[0-9a-f]{4}-[0-9a-f]{4}-[0-9a-f]{12}$/] *)
Definition guid_shaped (s : jsstring) : bool :=
  match
    and_then (and_then (and_then (and_then (and_then (and_then (and_then
      (and_then (take_hex 8 s) take_dash) (take_hex 4)) take_dash)
      (take_hex 4)) take_dash) (take_hex 4)) take_dash) (take_hex 12)
  with
  | Some [] => true
  | _ => false
  end.

(** A text with every LF turned into CR LF. *)
Fixpoint to_crlf (s : jsstring) : jsstring :=
  match s with
  | [] => []
  | c :: t => if N.eqb c LF then CR :: LF :: to_crlf t else c :: to_crlf t
  end.

(** Does the string contain CR LF? *)
Fixpoint has_crlf (s : jsstring) : bool :=
  match s with
  | [] => false
  | c :: t =>
      (N.eqb c CR && match t with d :: _ => N.eqb d LF | [] => false end)
      || has_crlf t
  end.

(** The order that compares strings code unit by code unit, a proper
    prefix coming first. *)
Inductive lex_le : jsstring -> jsstring -> Prop :=
| lex_le_nil (b : jsstring) : lex_le [] b
| lex_le_lt (x y : N) (a b : jsstring) :
    (x < y)%N -> lex_le (x :: a) (y :: b)
| lex_le_eq (x : N) (a b : jsstring) :
    lex_le a b -> lex_le (x :: a) (x :: b).

(** A name that ends in [.sql], with a character that is not a line
    terminator before the dot. *)
Definition ends_in_sql (n : jsstring) : Prop :=
  exists pre c, n = pre ++ c :: js ".sql" /\ is_line_terminator c = false.

(** A text of white space and line terminators only. *)
Definition blank (text : jsstring) : Prop :=
  Forall (fun c => is_trimmed_char c = true) text.

Definition is_begin (q : query) : bool :=
  match q with QBegin => true | _ => false end.

Definition is_commit (q : query) : bool :=
  match q with QCommit => true | _ => false end.

Definition is_rollback (q : query) : bool :=
  match q with QRollback => true | _ => false end.

(** How many statements of a kind were sent. *)
Definition count (kind : query -> bool) (qs : list query) : nat :=
  length (filter kind qs).

End Shapes.

(* ====================================================================== *)
(** * Conditions on the state of a run *)
(* ====================================================================== *)

Module Conditions.

Import Pg Mayflower.

(** The memo [_tableExists] is set only when the table is there. *)
Definition flag_sound {U : Type} (w : world U) : Prop :=
  _tableExists w = true -> ledger_of w <> None.

(** The table, when there, satisfies its constraints. *)
Definition constraints_hold {U : Type} (w : world U) : Prop :=
  forall rs, ledger_of w = Some rs -> check_constraints rs = None.

(** The table has a row with the fingerprint and the name of a script. *)
Definition recorded (s : SqlScript) (rs : list row) : Prop :=
  exists date duration, In (Row (hash s) (name s) date duration) rs.

(** The rows of the table, none when it is not there. *)
Definition rows_of {U : Type} (w : world U) : list row :=
  match ledger_of w with Some rs => rs | None => [] end.

(** The database as a script finds it outside preview, where the table
    has been created if it was not there. *)
Definition found_by_script {U : Type} (w : world U) : content U :=
  Content (Some (rows_of w)) (user (current (database w))).

(** The database as the script of [migrate] finds it: in preview as it
    is, otherwise with the table created if it was not there. *)
Definition seen_by_script {U : Type} (l : nat) (w : world U) : content U :=
  if preview (heap_get l (objects w)) then current (database w)
  else found_by_script w.

(** The write to the bookkeeping table that follows the script outside
    preview: an update of the row of the filename when there is one, an
    insert otherwise. *)
Definition ledger_write {U : Type} (elapsed : jsstring -> content U -> Z)
    (l : nat) (s : SqlScript) (w : world U) : query :=
  let t := elapsed (sql s) (seen_by_script l w) in
  match filter (has_filename (name s)) (rows_of w) with
  | [] => QInsert (hash s) (clock w) t (name s)
  | _ :: _ => QUpdateByFilename (hash s) (clock w) t (name s)
  end.

(** The output flag as [migrateAll] reads it after its defaults. *)
Definition prints (o : options) : bool :=
  match output o with Some b => b | None => true end.

(** What [migrateAll] prints for the outcomes of a run that printed. *)
Definition printed (results : list MigrationResult) : list jsstring :=
  filter truthy (map message results)
  ++ (let n := length (filter skipped results) in
      if 0 <? n
      then [of_nat n ++ js " previously applied migrations were skipped."]
      else []).

(** The scripts of a list all have their rows. *)
Definition all_recorded {U : Type} (scripts : list SqlScript) (w : world U)
  : Prop :=
  forall s, In s scripts ->
            exists rs, ledger_of w = Some rs /\ recorded s rs.

(** The argument of [migrateAll] is not an object, or is a reference to
    an object of the heap. *)
Definition not_dangling {U : Type} (arg : argument) (w : world U) : Prop :=
  match arg with
  | object_at l => l < length (objects w)
  | not_an_object => True
  end.

(** The options a caller of [migrateAll] gave: the object passed, or
    none of them set. *)
Definition given {U : Type} (arg : argument) (w : world U) : options :=
  match arg with
  | object_at l => heap_get l (objects w)
  | not_an_object => empty_object
  end.

End Conditions.

(* ====================================================================== *)
(** * A concrete database for examples *)
(* ====================================================================== *)

(** The rest of the database is the list of the scripts that ran on it; a
    script whose text starts with FAIL is rejected. *)

Module Demo.

Import Pg Mayflower.

Definition U : Type := list jsstring.

Definition run_script (sql : jsstring) (c : content U) : pg_error + content U :=
  if str_eqb (firstn 4 sql) (js "FAIL")
  then inl (script_error (js "syntax error"))
  else inr (Content (ledger c) (user c ++ [sql])).

(** A script whose text ends in COMMIT ends the transaction: what it
    did is committed. *)
Definition script_ends (sql : jsstring) (c : content U)
  : option (content U) :=
  match run_script sql c with
  | inl _ => None
  | inr c' =>
      if str_eqb (skipn (length sql - 7) sql) (js "COMMIT;")
      then Some c' else None
  end.

Definition elapsed (sql : jsstring) (c : content U) : Z := 7.

Definition a_sql : jsstring := js "a.sql".
Definition b_sql : jsstring := js "b.sql".

Definition select_1 : jsstring := js "SELECT 1;".
Definition select_2 : jsstring := js "SELECT 2;".

(** A directory with [a.sql] and [b.sql] of the same text. *)
Definition twins : filesystem :=
  mkFs (Some [b_sql; a_sql])
       (fun n => if str_eqb n a_sql || str_eqb n b_sql
                 then Some select_1 else None).

(** A directory where [a.sql] fails and [b.sql] would not. *)
Definition failing : filesystem :=
  mkFs (Some [a_sql; b_sql])
       (fun n => if str_eqb n a_sql then Some (js "FAIL;")
                 else if str_eqb n b_sql then Some select_1 else None).

(** A world with one options object, at reference 0. *)
Definition a_world (files : filesystem) (o : options)
    (rows : option (list row)) : world U :=
  World (js "migrations") (js "migrations") (js "public") false
        (Db (Content rows []) None [] false) files [o] 1000 [].

Definition h1 : jsstring := getHash select_1.
Definition h2 : jsstring := getHash select_2.

(** [a.sql] and [b.sql] with the text of [twins], and [a.sql] with
    another text. *)
Definition script_a : SqlScript := new_SqlScript a_sql select_1.
Definition script_b : SqlScript := new_SqlScript b_sql select_1.
Definition script_a2 : SqlScript := new_SqlScript a_sql select_2.
Definition script_fail : SqlScript := new_SqlScript a_sql (js "FAIL;").

(** Rows as a run on the first of January would have left them. *)
Definition row_a : row := Row h1 a_sql 1000 7.
Definition row_b2 : row := Row h2 b_sql 1000 7.

(** A directory with a schema script, a seed script, a blank script and
    a file that is not a script, listed out of order. *)
Definition create_sql : jsstring := js "001_create.sql".
Definition seed_sql : jsstring := js "002_seed.sql".
Definition create_text : jsstring :=
  js "CREATE TABLE t(id int);" ++ [CR; LF].
Definition seed_text : jsstring := js "INSERT INTO t VALUES (1);".

Definition seeded : filesystem :=
  mkFs (Some [seed_sql; js "README.md"; js "003_blank.sql"; create_sql])
       (fun n => if str_eqb n create_sql then Some create_text
                 else if str_eqb n seed_sql then Some seed_text
                 else if str_eqb n (js "003_blank.sql")
                      then Some [32; CR; LF; 9]%N
                 else None).

Definition real_run : options := mkOptions false false (Some false).
Definition forced_run : options := mkOptions false true (Some false).
Definition dry_run : options := mkOptions true false (Some false).

(** A script that commits its work itself. *)
Definition c_sql : jsstring := js "c.sql".

(** A database on which, besides, a script that starts with DROP removes
    the bookkeeping table. *)
Definition run_dropping (sql : jsstring) (c : content U)
  : pg_error + content U :=
  if str_eqb (firstn 4 sql) (js "DROP")
  then inr (Content None (user c ++ [sql]))
  else run_script sql c.

Definition dropping : jsstring := js "DROP TABLE migrations;".
Definition script_drop : SqlScript := new_SqlScript c_sql dropping.

End Demo.

(* ====================================================================== *)
(** * The digest on known inputs *)
(* ====================================================================== *)

Module Md5Facts.

Example md5_empty : Md5.md5_hex [] = js "d41d8cd98f00b204e9800998ecf8427e".
Proof. vm_compute. reflexivity. Qed.

Example md5_abc : Md5.md5_hex (js "abc") = js "900150983cd24fb0d6963f7d28e17f72".
Proof. vm_compute. reflexivity. Qed.

Example md5_two_blocks :
  Md5.md5_hex (repeat 97%N 64) = js "014842d480b571495a4a0363793f7367".
Proof. vm_compute. reflexivity. Qed.

Example md5_non_ascii :
  Md5.md5_hex [0xE9; 0x20AC; 0xD834; 0xDD1E]%N
  = js "a9508a7c24bc07606a80f3858f075d76".
Proof. vm_compute. reflexivity. Qed.

End Md5Facts.

(* ====================================================================== *)
(** * Properties of the string operations *)
(* ====================================================================== *)

Module JsStringFacts.

Import Shapes.

Lemma str_eqb_eq (a b : jsstring) : str_eqb a b = true <-> a = b.
Proof.
  revert b; induction a as [|x a IH]; intros [|y b]; simpl;
    try (split; [discriminate | discriminate]); try tauto.
  rewrite andb_true_iff, N.eqb_eq, IH.
  split; [intros [-> ->]; reflexivity | intros E; inversion E; auto].
Qed.

Lemma str_eqb_refl (a : jsstring) : str_eqb a a = true.
Proof. apply str_eqb_eq; reflexivity. Qed.

Lemma str_eqb_neq (a b : jsstring) : str_eqb a b = false <-> a <> b.
Proof.
  rewrite <- str_eqb_eq. destruct (str_eqb a b); split; congruence.
Qed.

Lemma str_eqb_sym (a b : jsstring) : str_eqb a b = str_eqb b a.
Proof.
  destruct (str_eqb a b) eqn:E.
  - apply str_eqb_eq in E; subst; symmetry; apply str_eqb_refl.
  - destruct (str_eqb b a) eqn:E'; auto.
    apply str_eqb_eq in E'; subst. rewrite str_eqb_refl in E; discriminate.
Qed.

(** *** The order of [sort] *)

Ltac cases_N x y :=
  destruct (N.ltb_spec x y); destruct (N.ltb_spec y x);
  destruct (N.eqb_spec x y); destruct (N.eqb_spec y x);
  try lia; try discriminate; auto.

Lemma str_ltb_irrefl (a : jsstring) : str_ltb a a = false.
Proof.
  induction a as [|x a IH]; simpl; auto.
  rewrite N.ltb_irrefl, N.eqb_refl; exact IH.
Qed.

Lemma str_ltb_asym (a b : jsstring) :
  str_ltb a b = true -> str_ltb b a = false.
Proof.
  revert b; induction a as [|x a IH]; intros [|y b]; simpl;
    auto; try discriminate.
  cases_N x y.
Qed.

Lemma str_ltb_trans (a b c : jsstring) :
  str_ltb a b = true -> str_ltb b c = true -> str_ltb a c = true.
Proof.
  revert b c; induction a as [|x a IH]; intros [|y b] [|z c]; simpl;
    auto; try discriminate.
  cases_N x y; cases_N y z; cases_N x z; apply IH.
Qed.

(** Two strings neither of which is below the other are equal. *)
Lemma str_ltb_total (a b : jsstring) :
  str_ltb a b = false -> str_ltb b a = false -> a = b.
Proof.
  revert b; induction a as [|x a IH]; intros [|y b]; simpl;
    auto; try discriminate.
  cases_N x y. intros H1 H2; subst; f_equal; auto.
Qed.

Lemma str_leb_total (a b : jsstring) :
  str_leb a b = false -> str_leb b a = true.
Proof.
  unfold str_leb. destruct (str_ltb b a) eqn:E; simpl; try discriminate.
  intros _. rewrite (str_ltb_asym _ _ E); reflexivity.
Qed.

Lemma str_leb_trans (a b c : jsstring) :
  str_leb a b = true -> str_leb b c = true -> str_leb a c = true.
Proof.
  unfold str_leb. rewrite !negb_true_iff. intros Hba Hcb.
  destruct (str_ltb c a) eqn:Hca; auto.
  destruct (str_ltb a b) eqn:Hab.
  - rewrite (str_ltb_trans _ _ _ Hca Hab) in Hcb; discriminate.
  - rewrite (str_ltb_total _ _ Hab Hba) in Hca. congruence.
Qed.

(** *** [sort] sorts and permutes *)

Lemma sort_insert_perm (x : jsstring) (l : list jsstring) :
  Permutation (sort_insert x l) (x :: l).
Proof.
  induction l as [|y l IH]; simpl; auto.
  destruct (str_leb x y); auto.
  rewrite IH. apply perm_swap.
Qed.

Lemma sort_perm (l : list jsstring) : Permutation (sort l) l.
Proof.
  induction l as [|x l IH]; simpl; auto.
  rewrite sort_insert_perm. auto.
Qed.

Lemma sort_insert_sorted (x : jsstring) (l : list jsstring) :
  StronglySorted str_le l -> StronglySorted str_le (sort_insert x l).
Proof.
  induction 1 as [|y l Hs IH Hall]; simpl.
  - constructor; constructor.
  - destruct (str_leb x y) eqn:E.
    + constructor; [constructor; assumption|].
      constructor; [exact E|].
      eapply Forall_impl; [|exact Hall].
      intros z Hz; eapply str_leb_trans; eauto.
    + constructor; [exact IH|].
      eapply Permutation_Forall.
      * symmetry; apply sort_insert_perm.
      * constructor; [apply str_leb_total; exact E | exact Hall].
Qed.

Lemma sort_sorted (l : list jsstring) : StronglySorted str_le (sort l).
Proof.
  induction l as [|x l IH]; simpl; [constructor|].
  apply sort_insert_sorted; exact IH.
Qed.

(** *** The CRLF replacement *)

Lemma replace_crlf_other (c : N) (s : jsstring) :
  c <> CR -> replace_crlf (c :: s) = c :: replace_crlf s.
Proof.
  intros Hc. destruct s as [|d t]; simpl; auto.
  destruct (N.eqb_spec c CR); [contradiction|]. reflexivity.
Qed.

Lemma replace_crlf_cr (d : N) (s : jsstring) :
  d <> LF -> replace_crlf (CR :: d :: s) = CR :: replace_crlf (d :: s).
Proof.
  intros Hd. cbn [replace_crlf].
  destruct (N.eqb_spec d LF); [contradiction|].
  rewrite andb_false_r. reflexivity.
Qed.

Lemma replace_crlf_idem_bounded (n : nat) :
  forall s, length s <= n -> has_cr_crlf s = false ->
            replace_crlf (replace_crlf s) = replace_crlf s.
Proof.
  induction n as [|n IH]; intros s Hlen Hno.
  - destruct s; [reflexivity | simpl in Hlen; lia].
  - destruct s as [|c [|d t]]; try reflexivity.
    assert (Ht : has_cr_crlf (d :: t) = false).
    { cbn [has_cr_crlf] in Hno. apply orb_false_iff in Hno. apply Hno. }
    assert (Ht' : has_cr_crlf t = false).
    { cbn [has_cr_crlf] in Ht. apply orb_false_iff in Ht. apply Ht. }
    simpl in Hlen.
    destruct (N.eqb_spec c CR) as [->|Hc].
    + destruct (N.eqb_spec d LF) as [->|Hd].
      * (* CR LF: one LF, the rest replaced *)
        change (replace_crlf (CR :: LF :: t)) with (LF :: replace_crlf t).
        rewrite replace_crlf_other by discriminate.
        rewrite IH; auto; lia.
      * rewrite replace_crlf_cr by assumption.
        (* the replaced rest does not start with LF *)
        destruct t as [|e t'].
        -- cbn [replace_crlf]. destruct (N.eqb_spec d LF); [contradiction|].
           rewrite andb_false_r. reflexivity.
        -- destruct (N.eqb_spec d CR) as [->|Hd'].
           ++ destruct (N.eqb_spec e LF) as [->|He].
              ** cbn in Hno. discriminate.
              ** rewrite (replace_crlf_cr t' He).
                 rewrite !(@replace_crlf_cr CR) by discriminate.
                 f_equal.
                 rewrite <- (replace_crlf_cr t' He).
                 apply IH; [cbn [length] in *; lia | exact Ht].
           ++ rewrite (replace_crlf_other (e :: t') Hd').
              rewrite replace_crlf_cr by assumption. f_equal.
              rewrite <- (replace_crlf_other (e :: t') Hd').
              apply IH; [cbn [length] in *; lia | exact Ht].
    + rewrite (replace_crlf_other (d :: t) Hc).
      rewrite replace_crlf_other by assumption. f_equal.
      apply IH; [cbn [length] in *; lia | exact Ht].
Qed.

(** A text without CR CR LF is stable after one replacement. *)
Lemma replace_crlf_idem (s : jsstring) :
  has_cr_crlf s = false -> replace_crlf (replace_crlf s) = replace_crlf s.
Proof. apply (replace_crlf_idem_bounded (n := length s)); auto. Qed.

(** *** The pattern [/.+\.sql$/] *)

Lemma rx_from_spec (s : jsstring) :
  rx_from s = true <->
  exists body, body <> [] /\ s = body ++ js ".sql"
               /\ forallb (fun c => negb (is_line_terminator c)) body = true.
Proof.
  induction s as [|c t IH]; simpl.
  - split; [discriminate|]. intros (body & Hb & E & _).
    destruct body; [contradiction | discriminate].
  - rewrite andb_true_iff, orb_true_iff, IH. unfold rx_suffix.
    rewrite str_eqb_eq. split.
    + intros [Hc [-> | (body & Hb & -> & Hall)]].
      * exists [c]. simpl. rewrite Hc. repeat split; congruence.
      * exists (c :: body). simpl. rewrite Hc, Hall.
        repeat split; congruence.
    + intros (body & Hb & E & Hall).
      destruct body as [|c' body]; [contradiction|].
      simpl in E, Hall. inversion E; subst.
      apply andb_true_iff in Hall as [Hc Hall]. split; [exact Hc|].
      destruct body as [|c'' body]; [left; reflexivity|].
      right. exists (c'' :: body). repeat split; congruence.
Qed.

(** The names [sqlExt] matches. *)
Lemma sqlExt_test_ends_in_sql (s : jsstring) :
  sqlExt_test s = true <-> ends_in_sql s.
Proof.
  unfold ends_in_sql.
  induction s as [|x t IH].
  - simpl. split; [discriminate|]. intros (pre & c & E & _).
    destruct pre; discriminate.
  - cbn [sqlExt_test]. rewrite orb_true_iff, IH, rx_from_spec. split.
    + intros [(body & Hb & E & Hall) | (pre & c & E & Hc)].
      * destruct (exists_last Hb) as (body' & c & ->).
        exists body', c. rewrite E, <- app_assoc. split; [reflexivity|].
        rewrite forallb_app in Hall. apply andb_true_iff in Hall as [_ Hall].
        simpl in Hall. rewrite andb_true_r in Hall.
        apply negb_true_iff in Hall. exact Hall.
      * exists (x :: pre), c. rewrite E. auto.
    + intros (pre & c & E & Hc). destruct pre as [|x' pre].
      * left. exists [c]. simpl in E. simpl. rewrite Hc.
        repeat split; congruence.
      * right. simpl in E. inversion E; subst. exists pre, c. auto.
Qed.


(** X3: [sqlExt.test(s)] holds exactly when [s] ends in ".sql" with, before
    it, a character that is not a line terminator. *)
Lemma sqlExt_test_spec (s : jsstring) :
  sqlExt_test s = true <->
  exists pre c, s = pre ++ c :: js ".sql" /\ is_line_terminator c = false.
Proof.
  induction s as [|x t IH].
  - simpl. split; [discriminate|]. intros (pre & c & E & _).
    destruct pre; discriminate.
  - cbn [sqlExt_test]. rewrite orb_true_iff, IH, rx_from_spec. split.
    + intros [(body & Hb & E & Hall) | (pre & c & E & Hc)].
      * destruct (exists_last Hb) as (body' & c & ->).
        exists body', c. rewrite E, <- app_assoc. split; [reflexivity|].
        rewrite forallb_app in Hall. apply andb_true_iff in Hall as [_ Hall].
        simpl in Hall. rewrite andb_true_r in Hall.
        apply negb_true_iff in Hall. exact Hall.
      * exists (x :: pre), c. rewrite E. auto.
    + intros (pre & c & E & Hc). destruct pre as [|x' pre].
      * left. exists [c]. simpl in E. simpl. rewrite Hc.
        repeat split; congruence.
      * right. simpl in E. inversion E; subst. exists pre, c. auto.
Qed.

(** ** The order of [sort] *)

Lemma str_le_lex (a b : jsstring) : str_le a b <-> lex_le a b.
Proof.
  unfold str_le, str_leb. revert b.
  induction a as [|x a IH]; intros [|y b]; simpl.
  - split; [constructor | reflexivity].
  - split; [constructor | reflexivity].
  - split; [discriminate | intros H; inversion H].
  - destruct (N.ltb y x) eqn:L; [apply N.ltb_lt in L | apply N.ltb_ge in L].
    + split; [discriminate|]. intros H. inversion H; subst; lia.
    + destruct (N.eqb y x) eqn:E;
        [apply N.eqb_eq in E | apply N.eqb_neq in E].
      * subst y. rewrite IH. split; [constructor; assumption|].
        intros H. inversion H; subst; [lia | assumption].
      * split; [intros _; constructor; lia | reflexivity].
Qed.

(** ** Blank texts *)

Lemma trim_start_nil (s : jsstring) :
  trim_start s = [] <-> Forall (fun c => is_trimmed_char c = true) s.
Proof.
  induction s as [|c s IH]; simpl.
  - split; [constructor | reflexivity].
  - destruct (is_trimmed_char c) eqn:E.
    + rewrite IH. split; [constructor; assumption|].
      intros H. inversion H; assumption.
    + split; [discriminate|]. intros H. inversion H; congruence.
Qed.

Lemma trim_start_head (s : jsstring) (c : N) (t : jsstring) :
  trim_start s = c :: t -> is_trimmed_char c = false.
Proof.
  induction s as [|x s IH]; simpl; [discriminate|].
  destruct (is_trimmed_char x) eqn:E; [exact IH|].
  intros H. injection H as -> _. exact E.
Qed.

Lemma trim_start_fixed (c : N) (t : jsstring) :
  is_trimmed_char c = false -> trim_start (c :: t) = c :: t.
Proof. intros H. simpl. rewrite H. reflexivity. Qed.

Lemma trim_start_last (a : jsstring) (c : N) :
  is_trimmed_char c = false -> exists u, trim_start (a ++ [c]) = u ++ [c].
Proof.
  intros H. induction a as [|x a IH]; simpl.
  - rewrite H. exists []. reflexivity.
  - destruct (is_trimmed_char x); [exact IH|]. exists (x :: a). reflexivity.
Qed.

Lemma Forall_rev_iff {A} (P : A -> Prop) (l : list A) :
  Forall P (rev l) <-> Forall P l.
Proof.
  rewrite !Forall_forall. split; intros H x Hx; apply H.
  - apply in_rev in Hx. exact Hx.
  - apply in_rev. exact Hx.
Qed.

Lemma trim_nil (s : jsstring) :
  trim s = [] <-> Forall (fun c => is_trimmed_char c = true) s.
Proof.
  unfold trim. rewrite <- trim_start_nil. split.
  - intros H. apply (f_equal (@rev N)) in H. rewrite rev_involutive in H.
    simpl in H. apply trim_start_nil in H. rewrite Forall_rev_iff in H.
    destruct (trim_start s) as [|c t] eqn:E; [reflexivity|].
    apply trim_start_head in E. inversion H; congruence.
  - intros ->. reflexivity.
Qed.

Lemma trim_blank (s : jsstring) : trim s = [] <-> blank s.
Proof. apply trim_nil. Qed.

End JsStringFacts.

(* ====================================================================== *)
(** * Properties of the bookkeeping table *)
(* ====================================================================== *)

Module PgFacts.

Import Pg JsStringFacts.

Lemma existsb_str_eqb (x : jsstring) (l : list jsstring) :
  existsb (str_eqb x) l = true <-> In x l.
Proof.
  rewrite existsb_exists. split.
  - intros (y & Hy & E). apply str_eqb_eq in E. subst. exact Hy.
  - intros H. exists x. split; [exact H | apply str_eqb_refl].
Qed.

Lemma distinct_NoDup (l : list jsstring) : distinct l = true <-> NoDup l.
Proof.
  induction l as [|x l IH]; simpl.
  - split; [constructor | reflexivity].
  - rewrite andb_true_iff, negb_true_iff, IH. split.
    + intros [Hx Hl]. constructor; [|exact Hl].
      intros Hin. apply existsb_str_eqb in Hin. congruence.
    + intros H. inversion H as [|? ? Hx Hl]; subst. split; [|exact Hl].
      destruct (existsb (str_eqb x) l) eqn:E; auto.
      apply existsb_str_eqb in E. contradiction.
Qed.

(** The table satisfies its constraints when no two rows share a hash
    and no two rows share a filename. *)
Lemma check_constraints_None (rs : list row) :
  check_constraints rs = None <->
  NoDup (map row_hash rs) /\ NoDup (map row_filename rs).
Proof.
  unfold check_constraints. rewrite <- !distinct_NoDup.
  destruct (distinct (map row_hash rs)), (distinct (map row_filename rs));
    simpl; split; try discriminate; try tauto; intros [? ?]; discriminate.
Qed.

Lemma has_hash_true (h : jsstring) (r : row) :
  has_hash h r = true <-> row_hash r = h.
Proof. apply str_eqb_eq. Qed.

Lemma has_filename_true (n : jsstring) (r : row) :
  has_filename n r = true <-> row_filename r = n.
Proof. apply str_eqb_eq. Qed.

Lemma filter_nil {A} (f : A -> bool) (l : list A) :
  filter f l = [] <-> forall x, In x l -> f x = false.
Proof.
  induction l as [|x l IH]; simpl.
  - split; [intros _ x [] | reflexivity].
  - destruct (f x) eqn:E.
    + split; [discriminate|]. intros H. specialize (H x (or_introl eq_refl)).
      congruence.
    + rewrite IH. split.
      * intros H y [<-|Hy]; auto.
      * intros H y Hy. apply H. right; exact Hy.
Qed.

(** No row with hash [h]: the lookup by hash is empty. *)
Lemma filter_hash_absent (h : jsstring) (rs : list row) :
  (forall r, In r rs -> row_hash r <> h) -> filter (has_hash h) rs = [].
Proof.
  intros H. apply filter_nil. intros r Hr.
  destruct (has_hash h r) eqn:E; auto.
  apply has_hash_true in E. elim (H r Hr E).
Qed.

Lemma filter_filename_absent (n : jsstring) (rs : list row) :
  (forall r, In r rs -> row_filename r <> n) ->
  filter (has_filename n) rs = [].
Proof.
  intros H. apply filter_nil. intros r Hr.
  destruct (has_filename n r) eqn:E; auto.
  apply has_filename_true in E. elim (H r Hr E).
Qed.

Lemma filter_filename_present (n : jsstring) (rs : list row) (r : row) :
  In r rs -> row_filename r = n ->
  exists r0 rest, filter (has_filename n) rs = r0 :: rest.
Proof.
  intros Hr E. destruct (filter (has_filename n) rs) as [|r0 rest] eqn:F.
  - assert (Hf := proj1 (filter_nil _ _) F r Hr).
    apply has_filename_true in E. congruence.
  - eauto.
Qed.

(** Under the primary key a lookup by hash finds the row, alone. *)
Lemma filter_hash_unique (rs : list row) (r : row) :
  NoDup (map row_hash rs) -> In r rs ->
  filter (has_hash (row_hash r)) rs = [r].
Proof.
  induction rs as [|x rs IH]; simpl; [tauto|].
  intros Hnd Hin. inversion Hnd as [|? ? Hx Hrs]; subst.
  destruct Hin as [->|Hin].
  - unfold has_hash at 1. rewrite str_eqb_refl. f_equal.
    apply filter_hash_absent. intros y Hy E. apply Hx. rewrite <- E.
    apply in_map; exact Hy.
  - destruct (has_hash (row_hash r) x) eqn:E.
    + apply has_hash_true in E. elim Hx. rewrite E. apply in_map; exact Hin.
    + apply IH; assumption.
Qed.

Lemma update_filename_hashes (n h : jsstring) (rs : list row) :
  map row_hash (update_filename n h rs) = map row_hash rs.
Proof.
  unfold update_filename. rewrite map_map. apply map_ext.
  intros r. destruct (has_hash h r); reflexivity.
Qed.

Lemma update_filename_absent (n h : jsstring) (rs : list row) :
  (forall r, In r rs -> row_hash r <> h) -> update_filename n h rs = rs.
Proof.
  intros H. unfold update_filename. rewrite <- (map_id rs) at 2.
  apply map_ext_in. intros r Hr. destruct (has_hash h r) eqn:E; auto.
  apply has_hash_true in E. elim (H r Hr E).
Qed.

Lemma update_filename_names (n h : jsstring) (rs : list row) (x : jsstring) :
  In x (map row_filename (update_filename n h rs)) ->
  x = n \/ In x (map row_filename rs).
Proof.
  unfold update_filename. rewrite map_map, in_map_iff.
  intros (r & E & Hr). destruct (has_hash h r); simpl in E; subst; auto.
  right. apply in_map; exact Hr.
Qed.

(** Renaming to a filename no row holds keeps the constraints. *)
Lemma update_filename_ok (n h : jsstring) (rs : list row) :
  check_constraints rs = None ->
  (forall r, In r rs -> row_filename r <> n) ->
  check_constraints (update_filename n h rs) = None.
Proof.
  rewrite !check_constraints_None, update_filename_hashes.
  intros [Hh Hn] Hfree. split; [exact Hh|].
  induction rs as [|x rs IH]; simpl; [constructor|].
  simpl in Hh, Hn. inversion Hh as [|? ? Hxh Hh']; subst.
  inversion Hn as [|? ? Hxn Hn']; subst.
  assert (Hfree' : forall r, In r rs -> row_filename r <> n)
    by (intros r Hr; apply Hfree; right; exact Hr).
  destruct (has_hash h x) eqn:E; simpl.
  - apply has_hash_true in E. subst h.
    rewrite update_filename_absent.
    + constructor; [|exact Hn']. rewrite in_map_iff.
      intros (r & Er & Hr). exact (Hfree' r Hr Er).
    + intros r Hr Er. apply Hxh. rewrite <- Er. apply in_map; exact Hr.
  - constructor; [|apply IH; assumption].
    intros Hin. apply update_filename_names in Hin as [Hin|Hin].
    + apply (Hfree x); [left; reflexivity | exact Hin].
    + contradiction.
Qed.

Lemma NoDup_map_eq {A B} (f : A -> B) (l : list A) (a b : A) :
  NoDup (map f l) -> In a l -> In b l -> f a = f b -> a = b.
Proof.
  induction l as [|x l IH]; simpl; [tauto|].
  intros Hnd Ha Hb E. inversion Hnd as [|? ? Hx Hl]; subst.
  destruct Ha as [->|Ha], Hb as [->|Hb]; auto.
  - elim Hx. rewrite E. apply in_map; exact Hb.
  - elim Hx. rewrite <- E. apply in_map; exact Ha.
Qed.

(** Renaming to a filename another row holds is rejected. *)
Lemma update_filename_collision (n h : jsstring) (rs : list row) (r r' : row) :
  check_constraints rs = None ->
  In r rs -> row_hash r = h ->
  In r' rs -> row_hash r' <> h -> row_filename r' = n ->
  check_constraints (update_filename n h rs)
  = Some (unique_violation (js "ux_migrations_filename")).
Proof.
  intros Hc Hr Eh Hr' Nh En.
  apply check_constraints_None in Hc as [Hh Hn].
  unfold check_constraints.
  rewrite update_filename_hashes.
  rewrite (proj2 (distinct_NoDup _) Hh). simpl.
  destruct (distinct (map row_filename (update_filename n h rs))) eqn:D;
    [|reflexivity].
  apply distinct_NoDup in D. exfalso.
  set (g := fun x => if has_hash h x
                     then Row (row_hash x) n (row_execution_date x)
                              (row_duration x)
                     else x).
  assert (Hg : In (g r) (update_filename n h rs)) by (apply in_map; exact Hr).
  assert (Hg' : In (g r') (update_filename n h rs))
    by (apply in_map; exact Hr').
  assert (E : g r = g r').
  { apply (NoDup_map_eq row_filename _ _ _ D Hg Hg').
    unfold g. rewrite (proj2 (has_hash_true h r) Eh).
    destruct (has_hash h r') eqn:E'; simpl; congruence. }
  unfold g in E. rewrite (proj2 (has_hash_true h r) Eh) in E.
  destruct (has_hash h r') eqn:E'.
  - apply has_hash_true in E'. contradiction.
  - apply Nh. rewrite <- E. simpl. exact Eh.
Qed.

End PgFacts.

(* ====================================================================== *)
(** * Properties of the migrator *)
(* ====================================================================== *)

Module MayflowerFacts.

Import Pg Mayflower Shapes Conditions JsStringFacts PgFacts.

Arguments js : simpl never.
Arguments conflict_message : simpl never.
Arguments rename_message : simpl never.
Arguments success_message : simpl never.
Arguments update_filename : simpl never.
Arguments update_by_filename : simpl never.
Arguments check_constraints : simpl never.
Arguments heap_get : simpl never.
Arguments bind {U A B} m k w /.
Arguments try_catch {U A} m handler w /.
Arguments ret {U A} a w /.
Arguments throw {U A} e w /.
Arguments gets {U A} f w /.
Arguments modify {U} f w /.
Arguments option_of {U A} f l w /.
Arguments query_ {U} run_script script_ends q w /.
Arguments with_database {U} d w /.
Arguments with_tableExists {U} b w /.
Arguments with_objects {U} h w /.
Arguments with_console {U} c w /.
Arguments committed {U} d /.
Arguments write_ledger {U} c rs n /.

(** ** Fingerprints *)

(** C5, as stated, fails: two files with the same trimmed text, one of
    them ending in a line feed, get different fingerprints, because
    [SqlScript] hashes the text as read, before trimming. *)
Lemma fingerprint_of_trimmed_text_counterexample :
  let s1 := new_SqlScript Demo.a_sql (js "SELECT 1;") in
  let s2 := new_SqlScript Demo.b_sql (js "SELECT 1;" ++ [LF]) in
  sql s1 = sql s2
  /\ replace_crlf (sql s1) = replace_crlf (sql s2)
  /\ hash s1 <> hash s2.
Proof.
  cbv zeta. split; [reflexivity|]. split; [reflexivity|].
  intros H. vm_compute in H. discriminate H.
Qed.

(** C5, amended: the fingerprint is a function of the text of the file as
    read (not trimmed) after the CRLF replacement; two scripts whose texts
    agree after that replacement share it, whatever their names. *)
Theorem fingerprint_of_normalized_text (n1 n2 t1 t2 : jsstring) :
  replace_crlf t1 = replace_crlf t2 ->
  hash (new_SqlScript n1 t1) = hash (new_SqlScript n2 t2)
  /\ hash (new_SqlScript n1 t1) = getHash (replace_crlf t1).
Proof. intros E. simpl. rewrite E. split; reflexivity. Qed.

Lemma fingerprint_of_normalized_text_witness :
  replace_crlf (js "SELECT 1;" ++ [CR; LF]) = replace_crlf (js "SELECT 1;" ++ [LF])
  /\ hash (new_SqlScript Demo.a_sql (js "SELECT 1;" ++ [CR; LF]))
     = hash (new_SqlScript Demo.b_sql (js "SELECT 1;" ++ [LF])).
Proof.
  split; [reflexivity|].
  apply (fingerprint_of_normalized_text Demo.a_sql Demo.b_sql
           (js "SELECT 1;" ++ [CR; LF]) (js "SELECT 1;" ++ [LF])).
  reflexivity.
Defined.

(** C6, as stated, fails: the replacement is one pass, and on CR CR LF it
    leaves CR LF, which a second replacement changes again. *)
Lemma fingerprint_crlf_invariance_counterexample :
  hash (new_SqlScript Demo.a_sql [CR; CR; LF])
  <> hash (new_SqlScript Demo.a_sql (replace_crlf [CR; CR; LF])).
Proof. intros H. vm_compute in H. discriminate H. Qed.

(** C6, amended: for every text without CR CR LF, the fingerprint of the
    text equals the fingerprint of the text with every CRLF replaced by
    LF. *)
Theorem fingerprint_crlf_invariance (n text : jsstring) :
  has_cr_crlf text = false ->
  hash (new_SqlScript n text) = hash (new_SqlScript n (replace_crlf text)).
Proof.
  intros H. simpl. rewrite (replace_crlf_idem text H). reflexivity.
Qed.

Lemma fingerprint_crlf_invariance_witness :
  has_cr_crlf (js "SELECT 1;" ++ [CR; LF] ++ js "SELECT 2;") = false
  /\ hash (new_SqlScript Demo.a_sql (js "SELECT 1;" ++ [CR; LF] ++ js "SELECT 2;"))
     = hash (new_SqlScript Demo.a_sql
               (replace_crlf (js "SELECT 1;" ++ [CR; LF] ++ js "SELECT 2;"))).
Proof.
  split; [reflexivity|].
  apply (fingerprint_crlf_invariance Demo.a_sql
           (js "SELECT 1;" ++ [CR; LF] ++ js "SELECT 2;")).
  reflexivity.
Defined.

(** ** Lists *)

Lemma filter_Permutation {A} (f : A -> bool) (l l' : list A) :
  Permutation l l' -> Permutation (filter f l) (filter f l').
Proof.
  induction 1 as [|x l l' _ IH|x y l|l l' l'' _ IH1 _ IH2]; simpl.
  - constructor.
  - destruct (f x); auto.
  - destruct (f x), (f y); auto. apply perm_swap.
  - etransitivity; eassumption.
Qed.

Lemma filter_filter {A} (f g : A -> bool) (l : list A) :
  filter f (filter g l) = filter (fun x => g x && f x) l.
Proof.
  induction l as [|x l IH]; simpl; auto.
  destruct (g x); simpl; [destruct (f x)|]; rewrite ?IH; reflexivity.
Qed.

Lemma filter_StronglySorted {A} (R : A -> A -> Prop) (f : A -> bool)
    (l : list A) :
  StronglySorted R l -> StronglySorted R (filter f l).
Proof.
  induction 1 as [|x l Hs IH Hall]; simpl; [constructor|].
  destruct (f x); [|exact IH].
  constructor; [exact IH|].
  apply Forall_forall. intros y Hy. apply filter_In in Hy as [Hy _].
  rewrite Forall_forall in Hall. auto.
Qed.

Lemma map_StronglySorted {A B} (R : B -> B -> Prop) (g : A -> B)
    (l : list A) :
  StronglySorted R (map g l) ->
  StronglySorted (fun a b => R (g a) (g b)) l.
Proof.
  induction l as [|x l IH]; simpl; intros H; [constructor|].
  inversion H as [|? ? Hs Hall]; subst.
  constructor; [apply IH; exact Hs|].
  rewrite Forall_forall in *. intros y Hy. apply Hall. apply in_map; exact Hy.
Qed.

Lemma skipn_length_app {A} (l qs : list A) : skipn (length l) (l ++ qs) = qs.
Proof. induction l; simpl; auto. Qed.

(** ** The options object *)

Lemma heap_get_set_same (l : nat) (o : options) (h : heap) :
  l < length h -> heap_get l (heap_set l o h) = o.
Proof.
  unfold heap_get. revert l; induction h as [|x h IH]; intros [|l]; simpl;
    try lia; auto.
  intros H. apply IH. lia.
Qed.

Lemma heap_get_set_other (l l' : nat) (o : options) (h : heap) :
  l <> l' -> heap_get l' (heap_set l o h) = heap_get l' h.
Proof.
  unfold heap_get. revert l l'; induction h as [|x h IH]; intros [|l] [|l'];
    simpl; try congruence; auto.
Qed.

Lemma heap_set_length (l : nat) (o : options) (h : heap) :
  length (heap_set l o h) = length h.
Proof.
  revert l; induction h as [|x h IH]; intros [|l]; simpl; auto.
Qed.


(** ** Runs of the migrator *)

Section Runs.

Variable U : Type.
Variable run_script : jsstring -> content U -> pg_error + content U.
Variable script_ends : jsstring -> content U -> option (content U).
Variable elapsed : jsstring -> content U -> Z.

Local Abbreviation migrate :=
  (Mayflower.migrate run_script script_ends elapsed).
Local Abbreviation migrate_each :=
  (Mayflower.migrate_each run_script script_ends elapsed).
Local Abbreviation migrateAll :=
  (Mayflower.migrateAll run_script script_ends elapsed).

(** ** getAllScripts *)

Lemma load_scripts_readable (w : world U) (names : list jsstring) :
  forall scripts,
    (forall n, In n names -> readfile (fs w) n <> None) ->
    load_scripts names scripts w
    = (Return (scripts ++ flat_map (loaded w) names), w).
Proof.
  induction names as [|n names IH]; intros scripts Hread; simpl.
  - rewrite app_nil_r. reflexivity.
  - unfold getScript, loaded.
    destruct (readfile (fs w) n) as [text|] eqn:E.
    + rewrite IH by (intros m Hm; apply Hread; right; exact Hm).
      simpl. destruct (truthy (trim text)); simpl;
        rewrite <- ?app_assoc; reflexivity.
    + elim (Hread n (or_introl eq_refl) E).
Qed.

Lemma loaded_names (w : world U) (names : list jsstring) :
  map name (flat_map (loaded w) names) = filter (loads_nonempty w) names.
Proof.
  induction names as [|n names IH]; simpl; auto.
  rewrite map_app, IH. unfold loaded, loads_nonempty.
  destruct (readfile (fs w) n) as [text|]; simpl; auto.
  destruct (truthy (trim text)); reflexivity.
Qed.

Lemma loaded_In (w : world U) (names : list jsstring) (s : SqlScript) :
  In s (flat_map (loaded w) names) <->
  exists n text, In n names /\ readfile (fs w) n = Some text
                 /\ trim text <> [] /\ s = new_SqlScript n text.
Proof.
  rewrite in_flat_map. unfold loaded. split.
  - intros (n & Hn & Hs). destruct (readfile (fs w) n) as [text|] eqn:E;
      [|contradiction].
    destruct (trim text) eqn:T; simpl in Hs; [contradiction|].
    destruct Hs as [<-|[]]. exists n, text. rewrite T.
    repeat split; auto; discriminate.
  - intros (n & text & Hn & E & T & ->). exists n. split; [exact Hn|].
    rewrite E. destruct (trim text); [contradiction|]. left; reflexivity.
Qed.

(** C7: when every listed file whose name ends in [.sql] can be read,
    [getAllScripts] returns, without an error, the scripts of exactly
    the listed names that end in [.sql] (after a character that is not a
    line terminator) and whose text is not blank, that is, does not
    consist of white space and line terminators only; they come in
    ascending order of their names compared code unit by code unit (so
    that 10.sql comes before 9.sql), each once when the listing has no
    name twice. *)
Theorem getAllScripts_sorted_sql_nonempty (w : world U) (files : list jsstring) :
  readdir (fs w) = Some files ->
  (forall n, In n files -> ends_in_sql n -> readfile (fs w) n <> None) ->
  exists scripts,
    getAllScripts w = (Return scripts, w)
    /\ StronglySorted (fun a b => lex_le (name a) (name b)) scripts
    /\ (forall s, In s scripts <->
          exists n text,
            In n files /\ ends_in_sql n
            /\ readfile (fs w) n = Some text /\ ~ blank text
            /\ s = new_SqlScript n text)
    /\ (NoDup files -> NoDup (map name scripts))
    /\ lex_le (js "10.sql") (js "9.sql")
    /\ ~ lex_le (js "9.sql") (js "10.sql").
Proof.
  intros Hdir Hread.
  exists (flat_map (loaded w) (sort (filter sqlExt_test files))).
  assert (Hperm := sort_perm (filter sqlExt_test files)).
  split; [|split; [|split; [|split; [|split]]]].
  - unfold getAllScripts, readDir. cbn [bind]. rewrite Hdir.
    rewrite load_scripts_readable; [reflexivity|].
    intros n Hn. apply (Permutation_in _ Hperm) in Hn.
    apply filter_In in Hn as [Hn Hx].
    apply sqlExt_test_ends_in_sql in Hx. auto.
  - apply map_StronglySorted. rewrite loaded_names.
    apply filter_StronglySorted.
    generalize (sort_sorted (filter sqlExt_test files)).
    generalize (sort (filter sqlExt_test files)).
    induction 1 as [|x t Ht IH Hx]; constructor; auto.
    revert Hx. apply Forall_impl. intros y. apply str_le_lex.
  - intros s. rewrite loaded_In. split.
    + intros (n & text & Hn & E & T & ->).
      apply (Permutation_in _ Hperm) in Hn.
      apply filter_In in Hn as [Hn Hx].
      apply sqlExt_test_ends_in_sql in Hx.
      rewrite trim_blank in T. exists n, text. auto.
    + intros (n & text & Hn & Hx & E & T & ->). exists n, text.
      rewrite trim_blank.
      repeat split; auto.
      apply (Permutation_in _ (Permutation_sym Hperm)).
      apply filter_In. split; [exact Hn|].
      apply sqlExt_test_ends_in_sql. exact Hx.
  - intros Hnd. rewrite loaded_names.
    apply NoDup_filter.
    apply (Permutation_NoDup (Permutation_sym Hperm)).
    apply NoDup_filter. exact Hnd.
  - apply str_le_lex. reflexivity.
  - rewrite <- str_le_lex. discriminate.
Qed.

(** ** Symbolic runs *)

Lemma issued_app (w w' : world U) (qs : list query) :
  log (database w') = log (database w) ++ qs -> issued w w' = qs.
Proof. unfold issued. intros ->. apply skipn_length_app. Qed.

(** Simplify [issued] between a state and a later state whose log is
    the earlier one extended. *)
Ltac issued_in H :=
  try unfold issued in H; cbn in H; rewrite <- ?app_assoc in H;
  first [ rewrite skipn_length_app in H | rewrite skipn_all in H ];
  cbn [app] in H.

Ltac issued_goal :=
  try unfold issued; cbn; rewrite <- ?app_assoc;
  first [ rewrite skipn_length_app | rewrite skipn_all ];
  cbn [app].

(** One step of a run in hypothesis [H]: compute, then split on the
    first test that is stuck. *)
Ltac split_run H :=
  cbn in H;
  match type of H with
  | context [match ?x with _ => _ end] =>
      lazymatch x with
      | context [match _ with _ => _ end] => fail
      | _ => destruct x eqn:?
      end
  end.

Ltac run_migrate H :=
  unfold Mayflower.migrate, createMigrationsTable in H;
  repeat split_run H;
  try discriminate H.

(** One step of a run in [H], using what is known of a test before
    splitting on it. *)
Ltac split_known H :=
  cbn in H;
  match type of H with
  | context [match ?x with _ => _ end] =>
      lazymatch x with
      | context [match _ with _ => _ end] => fail
      | _ =>
          match goal with
          | E : x = _ |- _ => rewrite E in H
          | _ => destruct x eqn:?
          end
      end
  end.

(** ** The options object is only read by [migrate] *)

Lemma migrate_objects (l : nat) (s : SqlScript) (w : world U) :
  objects (snd (migrate l s w)) = objects w.
Proof.
  destruct (migrate l s w) as [out w'] eqn:H.
  destruct w as [dir tbl sch te [[led usr] tx lg en] fsys objs clk con].
  run_migrate H; inversion H; subst; reflexivity.
Qed.

Lemma migrate_each_objects (l : nat) (scripts : list SqlScript) :
  forall results w,
    objects (snd (migrate_each l scripts results w)) = objects w.
Proof.
  induction scripts as [|s scripts IH]; intros results w; simpl; auto.
  assert (Hs := migrate_objects l s w).
  destruct (migrate l s w) as [[r|e] w1]; simpl in *; auto.
  rewrite IH. exact Hs.
Qed.

Lemma load_scripts_world (names : list jsstring) :
  forall scripts (w : world U), snd (load_scripts names scripts w) = w.
Proof.
  induction names as [|n names IH]; intros scripts w; simpl; auto.
  unfold getScript. destruct (readfile (fs w) n); simpl; auto.
Qed.

Lemma getAllScripts_world (w : world U) : snd (getAllScripts w) = w.
Proof.
  unfold getAllScripts, readDir. cbn [bind].
  destruct (readdir (fs w)); simpl; auto. apply load_scripts_world.
Qed.

Lemma report_objects (l : nat) (results : list MigrationResult) :
  forall n (w : world U),
    objects (snd (report l results n w)) = objects w
    /\ database (snd (report l results n w)) = database w
    /\ exists k, fst (report l results n w) = Return k.
Proof.
  induction results as [|r results IH]; intros n w; simpl.
  - eauto.
  - destruct (truthy (message r)
              && match output (heap_get l (objects w)) with
                 | Some b => b
                 | None => false
                 end); simpl;
      match goal with
      | |- context [report l results ?n' ?w'] =>
          destruct (IH n' w') as (Ho & Hd & k & Hk)
      end; rewrite Ho, Hd; simpl; eauto.
Qed.

(** [migrateAll], piece by piece. *)
Lemma migrateAll_run (arg : argument) (w : world U) :
  match default_options arg w with
  | (Throw e, w1) => migrateAll arg w = (Throw e, w1)
  | (Return l, w1) =>
      match getAllScripts w1 with
      | (Throw e, w2) => migrateAll arg w = (Throw e, w2)
      | (Return scripts, w2) =>
          let wc := with_database (db_connect (database w2)) w2 in
          match migrate_each l scripts [] wc with
          | (Throw e, w3) =>
              migrateAll arg w
              = (Throw e, with_database (db_end (database w3)) w3)
          | (Return results, w3) =>
              exists w4,
                migrateAll arg w = (Return results, w4)
                /\ database w4 = db_end (database w3)
                /\ objects w4 = objects w3
          end
      end
  end.
Proof.
  unfold Mayflower.migrateAll. cbn [bind].
  destruct (default_options arg w) as [[l|e] w1]; [|reflexivity].
  destruct (getAllScripts w1) as [[scripts|e] w2]; [|reflexivity].
  cbn [modify try_catch bind].
  destruct (migrate_each l scripts [] _) as [[results|e] w3];
    [|reflexivity].
  cbn [ret bind modify].
  match goal with
  | |- context [report l results 0 ?w'] =>
      destruct (report_objects l results 0 w') as (Ho & Hd & k & Hk);
      destruct (report l results 0 w') as [out w5]
  end.
  simpl in Ho, Hd, Hk. subst out. cbn [option_of gets bind].
  destruct (_ && _); cbn; eexists; (split; [reflexivity|]);
    cbn; rewrite ?Ho, ?Hd; auto.
Qed.

Lemma default_options_object (l : nat) (w : world U) :
  default_options (object_at l) w
  = (Return l,
     match output (heap_get l (objects w)) with
     | Some _ => w
     | None =>
         let o := heap_get l (objects w) in
         with_objects
           (heap_set l (mkOptions (preview o) (force o) (Some true))
              (objects w)) w
     end).
Proof.
  unfold default_options. cbn.
  destruct (output (heap_get l (objects w))); reflexivity.
Qed.

Lemma migrateAll_objects (arg : argument) (w : world U) :
  objects (snd (migrateAll arg w)) = objects (snd (default_options arg w)).
Proof.
  assert (H := migrateAll_run arg w).
  destruct (default_options arg w) as [[l|e] w1]; [|rewrite H; reflexivity].
  assert (Hw := getAllScripts_world w1).
  destruct (getAllScripts w1) as [[scripts|e] w2]; simpl in Hw; subst w2;
    [|rewrite H; reflexivity].
  cbv zeta in H.
  match type of H with
  | context [migrate_each l scripts [] ?wc] =>
      assert (Ho := migrate_each_objects l scripts [] wc);
      destruct (migrate_each l scripts [] wc) as [[results|e] w3]
  end; simpl in Ho.
  - destruct H as (w4 & -> & _ & Ho4). simpl. congruence.
  - rewrite H. simpl. exact Ho.
Qed.

Lemma default_options_fresh (w : world U) :
  default_options not_an_object w
  = (Return (length (objects w)),
     with_objects (objects w ++ [mkOptions false false (Some true)]) w).
Proof.
  unfold default_options. cbn.
  assert (E : heap_get (length (objects w)) (objects w ++ [empty_object])
              = empty_object).
  { unfold heap_get. rewrite app_nth2, Nat.sub_diag by lia. reflexivity. }
  rewrite E. cbn. rewrite E. cbn. f_equal. f_equal.
  clear E. induction (objects w) as [|x h IH]; simpl; congruence.
Qed.

(** C9, amended: [migrate] never writes the options object; [migrateAll]
    leaves [preview] and [force] as they were and changes the object
    only by setting [output] to [true] when it was undefined; no other
    object is changed, also when the argument is not an object. *)
Theorem options_only_defaulted (l : nat) (s : SqlScript) (w : world U) :
  l < length (objects w) ->
  objects (snd (migrate l s w)) = objects w
  /\ (let o := heap_get l (objects w) in
      let o' := heap_get l (objects (snd (migrateAll (object_at l) w))) in
      preview o' = preview o /\ force o' = force o
      /\ output o' = Some (match output o with Some b => b | None => true end))
  /\ (forall l', l' <> l ->
        heap_get l' (objects (snd (migrateAll (object_at l) w)))
        = heap_get l' (objects w))
  /\ (forall l', l' < length (objects w) ->
        heap_get l' (objects (snd (migrateAll not_an_object w)))
        = heap_get l' (objects w)).
Proof.
  intros Hl. split; [apply migrate_objects|].
  rewrite !migrateAll_objects, default_options_object, default_options_fresh.
  cbn [snd]. split; [|split].
  - cbv zeta. destruct (output (heap_get l (objects w))) eqn:E; cbn.
    + rewrite E. auto.
    + rewrite heap_get_set_same by assumption. auto.
  - intros l' Hne. destruct (output (heap_get l (objects w))); cbn; auto.
    apply heap_get_set_other; congruence.
  - intros l' Hl'. cbn. unfold heap_get. apply app_nth1. exact Hl'.
Qed.

(** ** The batch *)

Lemma migrate_each_app (l : nat) (pre rest : list SqlScript) :
  forall results w,
    migrate_each l (pre ++ rest) results w
    = match migrate_each l pre results w with
      | (Return results', w') => migrate_each l rest results' w'
      | (Throw e, w') => (Throw e, w')
      end.
Proof.
  induction pre as [|s pre IH]; intros results w; simpl; auto.
  destruct (migrate l s w) as [[r|e] w1]; auto.
Qed.

(** A script that throws ends the loop there. *)
Lemma migrate_each_throws (l : nat) (s : SqlScript) (rest : list SqlScript)
    (results : list MigrationResult) (w w' : world U) (e : js_error) :
  migrate l s w = (Throw e, w') ->
  migrate_each l (s :: rest) results w = (Throw e, w').
Proof. intros H. simpl. rewrite H. reflexivity. Qed.

(** When the call of [migrate] for a script of the batch throws,
    [migrateAll] closes the connection and throws the same error; the
    database has received nothing after the failing call. *)
Lemma batch_aborts (arg : argument) (l : nat) (w0 w1 w2 w w' : world U)
    (pre post : list SqlScript) (s : SqlScript)
    (results : list MigrationResult) (e : js_error) :
  default_options arg w0 = (Return l, w1) ->
  getAllScripts w1 = (Return (pre ++ s :: post), w2) ->
  migrate_each l pre [] (with_database (db_connect (database w2)) w2)
  = (Return results, w) ->
  migrate l s w = (Throw e, w') ->
  migrateAll arg w0 = (Throw e, with_database (db_end (database w')) w').
Proof.
  intros Hd Hg Hpre Hs. assert (H := migrateAll_run arg w0).
  rewrite Hd, Hg in H. cbv zeta in H.
  rewrite migrate_each_app, Hpre in H.
  rewrite (@migrate_each_throws l s post results w w' e Hs) in H.
  exact H.
Qed.

(** ** The filename conflict *)

(** C2: a script whose fingerprint has no row while a row holds its
    filename, without [force]: [migrate] throws the conflict error, whose
    message carries the filename and the new fingerprint; only lookups
    were sent, so no transaction was begun and the database is as it
    was; the loop stops there and [migrateAll] throws that same error
    after closing the connection. *)
Theorem conflict_without_force (l : nat) (s : SqlScript) (w : world U)
    (rs : list row) (r : row) :
  ledger_of w = Some rs ->
  (forall r', In r' rs -> row_hash r' <> hash s) ->
  In r rs -> row_filename r = name s ->
  force (heap_get l (objects w)) = false ->
  exists w',
    migrate l s w = (Throw (Error (conflict_message s)), w')
    /\ conflict_message s
       = js "Failed to migrate: " ++ name s ++ js " (Hash: " ++ hash s
         ++ js ") - the file was already migrated in the past, to force migration use options.force"
    /\ Forall (fun q => is_select q = true) (issued w w')
    /\ current (database w') = current (database w)
    /\ txn (database w') = txn (database w)
    /\ (forall rest results,
          migrate_each l (s :: rest) results w
          = (Throw (Error (conflict_message s)), w'))
    /\ (forall arg w0 w1 w2 pre post results,
          default_options arg w0 = (Return l, w1) ->
          getAllScripts w1 = (Return (pre ++ s :: post), w2) ->
          migrate_each l pre [] (with_database (db_connect (database w2)) w2)
          = (Return results, w) ->
          exists wf,
            migrateAll arg w0 = (Throw (Error (conflict_message s)), wf)
            /\ log (database wf) = log (database w')
            /\ ended (database wf) = true).
Proof.
  intros Hl Hh Hr Hn Hf.
  apply filter_hash_absent in Hh.
  destruct (filter_filename_present _ _ Hr Hn) as (r0 & rest0 & Hfn).
  assert (Hrun : exists w',
    migrate l s w = (Throw (Error (conflict_message s)), w')
    /\ Forall (fun q => is_select q = true) (issued w w')
    /\ current (database w') = current (database w)
    /\ txn (database w') = txn (database w)).
  { destruct w as [dir tbl sch te [[led usr] tx lg en] fsys objs clk con].
    unfold ledger_of in Hl. cbn in Hl, Hf. subst led.
    unfold Mayflower.migrate, createMigrationsTable.
    destruct te; cbn; rewrite Hh; cbn; rewrite Hfn; cbn; rewrite Hf; cbn;
      eexists; (split; [reflexivity|]);
      (split; [issued_goal; repeat constructor | split; reflexivity]). }
  destruct Hrun as (w' & Hrun & Hq & Hc & Ht).
  exists w'. repeat (split; [assumption || reflexivity|]). split.
  - intros rest results. apply migrate_each_throws. exact Hrun.
  - intros arg w0 w1 w2 pre post results Hd Hg Hpre.
    eexists. split; [eapply batch_aborts; eassumption|].
    split; reflexivity.
Qed.

(** ** A fingerprint already in the table *)

Lemma lookup_by_hash (s : SqlScript) (rs : list row) (r : row) :
  check_constraints rs = None -> In r rs -> row_hash r = hash s ->
  filter (has_hash (hash s)) rs = [r].
Proof.
  intros Hc Hr <-. apply filter_hash_unique; [|exact Hr].
  apply check_constraints_None in Hc. apply Hc.
Qed.

(** Another row holds the name: it has another hash. *)
Lemma other_row_other_hash (rs : list row) (r r' : row) (n : jsstring) :
  check_constraints rs = None -> In r rs -> In r' rs ->
  row_filename r <> n -> row_filename r' = n ->
  row_hash r' <> row_hash r.
Proof.
  intros Hc Hr Hr' Hn Hn' E. apply check_constraints_None in Hc as [Hh _].
  assert (r' = r) by (eapply NoDup_map_eq; eassumption). congruence.
Qed.

(** C1, amended: a script whose fingerprint has a row in the table is
    never executed, with or without [force]: no transaction is begun, no
    script is sent, and [migrate] returns an outcome with [skipped] true
    and [runtime] 0 -- unless, outside preview, the stored filename
    differs and another row already holds the script's name; the renaming
    update is then rejected by the unique constraint on [filename] and
    [migrate] throws that database error. *)
Theorem known_fingerprint_is_skipped (l : nat) (s : SqlScript) (w : world U)
    (rs : list row) (r : row) :
  ledger_of w = Some rs -> check_constraints rs = None ->
  In r rs -> row_hash r = hash s ->
  exists out w',
    migrate l s w = (out, w')
    /\ Forall (fun q => q <> QBegin /\ is_script q = false) (issued w w')
    /\ txn (database w') = txn (database w)
    /\ user (current (database w')) = user (current (database w))
    /\ ((preview (heap_get l (objects w)) = true
         \/ row_filename r = name s
         \/ (forall r', In r' rs -> row_filename r' <> name s)) ->
        exists res,
          out = Return res /\ res_name res = name s
          /\ skipped res = true /\ runtime res = 0%Z)
    /\ (preview (heap_get l (objects w)) = false ->
        row_filename r <> name s ->
        (exists r', In r' rs /\ row_filename r' = name s) ->
        out = Throw (DbError (unique_violation (js "ux_migrations_filename")))).
Proof.
  intros Hl Hc Hr Hh.
  assert (Hfind := @lookup_by_hash s rs r Hc Hr Hh).
  destruct w as [dir tbl sch te [[led usr] tx lg en] fsys objs clk con].
  unfold ledger_of in Hl. cbn in Hl. subst led. cbn [objects].
  unfold Mayflower.migrate, createMigrationsTable.
  destruct (str_eqb (row_filename r) (name s)) eqn:E;
    [apply str_eqb_eq in E | apply str_eqb_neq in E].
  - (* the stored filename is the script's *)
    destruct te; cbn; rewrite Hfind; cbn;
      rewrite (proj2 (str_eqb_eq _ _) E); cbn;
      do 2 eexists; (split; [reflexivity|]);
      (split; [issued_goal; repeat constructor; discriminate|]);
      repeat split; eauto; intros; contradiction.
  - destruct (preview (heap_get l objs)) eqn:P.
    + (* a rename in preview: the message only *)
      destruct te; cbn; rewrite Hfind; cbn;
        rewrite (proj2 (str_eqb_neq _ _) E); cbn; rewrite P; cbn;
        do 2 eexists; (split; [reflexivity|]);
        (split; [issued_goal; repeat constructor; discriminate|]);
        repeat split; eauto; intros; discriminate.
    + (* a rename: the update is sent *)
      destruct (check_constraints (update_filename (name s) (hash s) rs))
        as [pe|] eqn:C.
      * assert (Hno : ~ (forall r', In r' rs -> row_filename r' <> name s)).
        { intros Hfree. rewrite (@update_filename_ok (name s) (hash s) rs Hc Hfree) in C.
          discriminate. }
        destruct te; cbn; rewrite Hfind; cbn;
          rewrite (proj2 (str_eqb_neq _ _) E); cbn; rewrite P; cbn;
          try unfold write_ledger; rewrite C; cbn;
          do 2 eexists; (split; [reflexivity|]);
          (split; [issued_goal; repeat constructor; discriminate|]);
          (split; [reflexivity|]); (split; [reflexivity|]);
          (split; [intros [?|[?|?]]; [discriminate|contradiction|contradiction]|]);
          intros _ _ (r' & Hr' & En);
          rewrite (@update_filename_collision (name s) (hash s) rs r r'
                     Hc Hr Hh Hr'
                     (eq_ind _ (fun h => row_hash r' <> h)
                        (@other_row_other_hash rs r r' (name s)
                           Hc Hr Hr' E En) _ Hh) En) in C;
          congruence.
      * destruct te; cbn; rewrite Hfind; cbn;
          rewrite (proj2 (str_eqb_neq _ _) E); cbn; rewrite P; cbn;
          try unfold write_ledger; rewrite C; cbn;
          do 2 eexists; (split; [reflexivity|]);
          (split; [issued_goal; repeat constructor; discriminate|]);
          (split; [reflexivity|]); (split; [reflexivity|]);
          (split; [eauto|]);
          intros _ _ (r' & Hr' & En);
          rewrite (@update_filename_collision (name s) (hash s) rs r r'
                     Hc Hr Hh Hr'
                     (eq_ind _ (fun h => row_hash r' <> h)
                        (@other_row_other_hash rs r r' (name s)
                           Hc Hr Hr' E En) _ Hh) En) in C;
          discriminate.
Qed.

(** ** Renames *)

Lemma update_filename_renamed (n h : jsstring) (rs : list row) (r : row) :
  In r rs -> row_hash r = h ->
  In (Row h n (row_execution_date r) (row_duration r))
     (update_filename n h rs).
Proof.
  intros Hr Eh. unfold update_filename. apply in_map_iff. exists r.
  split; [|exact Hr].
  rewrite (proj2 (has_hash_true h r) Eh). rewrite Eh. reflexivity.
Qed.

Lemma update_filename_others (n h : jsstring) (rs : list row) (x : row) :
  In x rs -> row_hash x <> h -> In x (update_filename n h rs).
Proof.
  intros Hx Nh. unfold update_filename. apply in_map_iff. exists x.
  split; [|exact Hx].
  destruct (has_hash h x) eqn:E; [|reflexivity].
  apply has_hash_true in E. contradiction.
Qed.

Ltac exists_pre qs := eexists; exists qs.

(** C4, amended: a script whose fingerprint has a row under another
    filename is not executed and its outcome is skipped, with the rename
    message.  In preview nothing is written.  Outside preview the row of
    that fingerprint gets the script's name, provided no row holds that
    name already (the table has a unique constraint on [filename]). *)
Theorem rename_updates_filename (l : nat) (s : SqlScript) (w : world U)
    (rs : list row) (r : row) :
  ledger_of w = Some rs -> check_constraints rs = None ->
  In r rs -> row_hash r = hash s -> row_filename r <> name s ->
  let renamed := mkMigrationResult (name s) true 0 (rename_message s) in
  rename_message s
  = js "Filename has changed in the database; updating " ++ name s
  /\ (preview (heap_get l (objects w)) = true ->
      exists w',
        migrate l s w = (Return renamed, w')
        /\ Forall (fun q => is_select q = true) (issued w w')
        /\ current (database w') = current (database w))
  /\ (preview (heap_get l (objects w)) = false ->
      (forall r', In r' rs -> row_filename r' <> name s) ->
      exists w' pre,
        migrate l s w = (Return renamed, w')
        /\ issued w w' = pre ++ [QUpdateFilename (name s) (hash s)]
        /\ Forall (fun q => is_select q = true) pre
        /\ ledger_of w' = Some (update_filename (name s) (hash s) rs)
        /\ In (Row (hash s) (name s) (row_execution_date r) (row_duration r))
              (update_filename (name s) (hash s) rs)
        /\ (forall x, In x rs -> row_hash x <> hash s ->
                      In x (update_filename (name s) (hash s) rs))
        /\ length (update_filename (name s) (hash s) rs) = length rs
        /\ user (current (database w')) = user (current (database w))).
Proof.
  intros Hl Hc Hr Hh E renamed.
  assert (Hfind := @lookup_by_hash s rs r Hc Hr Hh).
  destruct w as [dir tbl sch te [[led usr] tx lg en] fsys objs clk con].
  unfold ledger_of in *. cbn in Hl. subst led. cbn [objects].
  unfold Mayflower.migrate, createMigrationsTable.
  split; [reflexivity|]. split.
  - intros P.
    destruct te; cbn; rewrite Hfind; cbn;
      rewrite (proj2 (str_eqb_neq _ _) E); cbn; rewrite P; cbn;
      eexists; (split; [reflexivity|]);
      (split; [issued_goal; repeat constructor | reflexivity]).
  - intros P Hfree.
    assert (C := @update_filename_ok (name s) (hash s) rs Hc Hfree).
    assert (H1 := @update_filename_renamed (name s) (hash s) rs r Hr Hh).
    assert (H2 := fun x => @update_filename_others (name s) (hash s) rs x).
    assert (H3 : length (update_filename (name s) (hash s) rs) = length rs)
      by apply length_map.
    destruct te;
      [exists_pre [QSelectByHash (hash s)]
      |exists_pre [QTableExists sch tbl; QSelectByHash (hash s)]].
    all: cbn; rewrite Hfind; cbn;
      rewrite (proj2 (str_eqb_neq _ _) E); cbn; rewrite P; cbn;
      try unfold write_ledger; rewrite C; cbn.
    all: split; [reflexivity|].
    all: split; [issued_goal; reflexivity|].
    all: split; [repeat constructor|].
    all: repeat split; auto.
Qed.

(** ** Failures while a script is applied *)

(** The statements before BEGIN, and those between the script and the
    closing ROLLBACK. *)
Ltac before_begin L :=
  lazymatch L with
  | QBegin :: _ => constr:(@nil query)
  | ?x :: ?t => let r := before_begin t in constr:(x :: r)
  end.

Ltac before_rollback L :=
  lazymatch L with
  | [QRollback] => constr:(@nil query)
  | ?x :: ?t => let r := before_rollback t in constr:(x :: r)
  end.

Ltac after_script L :=
  lazymatch L with
  | QScript _ :: ?t => before_rollback t
  | _ :: ?t => after_script t
  end.

(** The world a failed run has ended in, and the statements it has
    sent before BEGIN and after the script. *)
Ltac give_failed_run :=
  lazymatch goal with
  | |- exists w' pre mid, (_, ?W) = _ /\ issued ?W0 _ = _ /\ _ =>
      exists W;
      let qs := fresh "qs" in
      let HL := fresh "HL" in
      remember (issued W0 W) as qs eqn:HL;
      issued_in HL;
      lazymatch type of HL with
      | _ = ?L =>
          let a := before_begin L in
          let b := after_script L in
          exists a, b
      end;
      subst qs
  end.

(** C8: when the statement of a script that [migrate] sends fails, or,
    outside preview, the write to the bookkeeping table that follows it,
    [migrate] sends ROLLBACK and no COMMIT and throws the error of the
    failed statement as it is.  The database is then where it was at
    BEGIN, or where the script has left it by a COMMIT of its own.  The
    loop stops at that script, and [migrateAll] closes the connection
    and throws that same error, the database having received nothing
    more. *)
Theorem failure_rolls_back_and_aborts (l : nat) (s : SqlScript)
    (w : world U) (pe : pg_error) :
  txn (database w) = None ->
  sends_script l s w = true ->
  let c0 := seen_by_script l w in
  let write := ledger_write elapsed l s w in
  (run_script (sql s) c0 = inl pe
   \/ (preview (heap_get l (objects w)) = false
       /\ exists c1, run_script (sql s) c0 = inr c1
                     /\ exec run_script write c1 = inl pe)) ->
  exists w' pre mid,
    migrate l s w = (Throw (DbError pe), w')
    /\ issued w w' = pre ++ [QBegin; QScript (sql s)] ++ mid ++ [QRollback]
    /\ Forall (fun q => is_select q = true \/ q = QCreateTable) pre
    /\ (mid = [] \/ mid = [write])
    /\ ~ In QCommit (issued w w')
    /\ txn (database w') = None
    /\ current (database w')
       = match script_ends (sql s) c0 with Some k => k | None => c0 end
    /\ (forall rest results,
          migrate_each l (s :: rest) results w = (Throw (DbError pe), w'))
    /\ (forall arg w0 w1 w2 before after results,
          default_options arg w0 = (Return l, w1) ->
          getAllScripts w1 = (Return (before ++ s :: after), w2) ->
          migrate_each l before []
            (with_database (db_connect (database w2)) w2)
          = (Return results, w) ->
          exists wf,
            migrateAll arg w0 = (Throw (DbError pe), wf)
            /\ ended (database wf) = true
            /\ log (database wf) = log (database w')
            /\ current (database wf) = current (database w')).
Proof.
  intros Htx Hsend c0 write Hfail.
  assert (Hrun : exists w' pre mid,
    migrate l s w = (Throw (DbError pe), w')
    /\ issued w w' = pre ++ [QBegin; QScript (sql s)] ++ mid ++ [QRollback]
    /\ Forall (fun q => is_select q = true \/ q = QCreateTable) pre
    /\ (mid = [] \/ mid = [write])
    /\ ~ In QCommit (issued w w')
    /\ txn (database w') = None
    /\ current (database w')
       = match script_ends (sql s) c0 with Some k => k | None => c0 end).
  { subst c0 write.
    destruct w as [dir tbl sch te [[led usr] tx lg en] fsys objs clk con].
    cbn in Htx. subst tx.
    unfold sends_script, ledger_write, seen_by_script, found_by_script,
      rows_of, ledger_of in *.
    cbn [objects database current ledger user clock _tableExists] in *.
    destruct (migrate l s _) as [out w'] eqn:H.
    unfold Mayflower.migrate, createMigrationsTable in H.
    destruct (preview (heap_get l objs)) eqn:P;
      destruct led as [rs|]; destruct te; try discriminate Hsend;
      cbn in Hsend;
      try (destruct (filter (has_hash (hash s)) rs) eqn:Hh;
           [|discriminate Hsend];
           destruct (filter (has_filename (name s)) rs) eqn:Hn);
      cbn in Hfail;
      (destruct Hfail as [Hs|(Hp & c1 & Hs & Hw)];
       [|try discriminate Hp; cbn in Hw]).
    all: repeat (cbn in H; rewrite ?P, ?Hsend, ?Hs, ?Hh, ?Hn in H;
                 split_known H).
    all: cbn in H; rewrite ?P in H; cbn in H.
    all: repeat match goal with
           | E : filter ?f ?x = _, E' : length (filter ?f ?x) = _ |- _ =>
               rewrite E in E'; cbn in E'
           end.
    all: try discriminate.
    all: try match goal with
           | E : negb (preview _) = _ |- _ =>
               rewrite P in E; discriminate E
           end.
    all: inversion H; subst; clear H.
    all: repeat match goal with
           | E : ?x = _, E' : context [match ?x with _ => _ end] |- _ =>
               rewrite E in E'; cbn in E'
           end.
    all: try discriminate.
    all: try match goal with
           | E : inl _ = inl _ |- _ => injection E as <-
           end.
    all: give_failed_run.
    all: split; [reflexivity|].
    all: split; [reflexivity|].
    all: split;
      [repeat (constructor;
               [first [left; reflexivity | right; reflexivity]|]);
       constructor|].
    all: split; [first [left; reflexivity | right; reflexivity]|].
    all: split; [cbn; intuition discriminate|].
    all: split; reflexivity. }
  destruct Hrun as (w' & pre & mid & Hrun & Hq & Hpre & Hmid & Hc & Ht & Hs).
  exists w', pre, mid. repeat (split; [assumption|]). split.
  - intros rest results. apply migrate_each_throws. exact Hrun.
  - intros arg w0 w1 w2 before after results Hd Hg Hbefore.
    eexists. split; [eapply batch_aborts; eassumption|].
    cbn. rewrite Ht. auto.
Qed.

(** ** Preview *)





(** ** Two scripts of the same text *)

Lemma filter_head_In {A} (f : A -> bool) (l : list A) (x : A) (rest : list A) :
  filter f l = x :: rest -> In x l /\ f x = true.
Proof.
  intros E. apply filter_In. rewrite E. left; reflexivity.
Qed.

Lemma update_by_filename_In (h : jsstring) (d t : Z) (n : jsstring)
    (rs : list row) (r : row) :
  In r rs -> row_filename r = n ->
  In (Row h n d t) (update_by_filename h d t n rs).
Proof.
  intros Hr En. unfold update_by_filename. apply in_map_iff. exists r.
  split; [|exact Hr].
  rewrite (proj2 (has_filename_true n r) En). rewrite En. reflexivity.
Qed.





Section KeptLedger.

(** Migration scripts leave the bookkeeping table alone. *)
Hypothesis scripts_keep_ledger :
  forall sql c c', run_script sql c = inr c' -> ledger c' = ledger c.



End KeptLedger.

End Runs.

(** ** Examples on the concrete database *)

(** C9, as stated, fails: [migrateAll] called with an options object
    whose [output] is undefined sets it to [true] in that object. *)
Lemma options_never_mutated_counterexample :
  let o := mkOptions false false None in
  let w := Demo.a_world Demo.twins o None in
  heap_get 0 (objects w) = o
  /\ heap_get 0
       (objects (snd (Mayflower.migrateAll Demo.run_script
           Demo.script_ends Demo.elapsed
                        (object_at 0) w)))
     = mkOptions false false (Some true).
Proof. split; vm_compute; reflexivity. Qed.

Lemma demo_scripts_keep_ledger :
  forall sql (c c' : content Demo.U),
    Demo.run_script sql c = inr c' -> ledger c' = ledger c.
Proof.
  intros sql c c' H. unfold Demo.run_script in H.
  destruct (str_eqb (firstn 4 sql) (js "FAIL")); [discriminate H|].
  injection H as <-. reflexivity.
Defined.

(** C1, as stated, fails: the fingerprint of [b.sql] has a row, stored
    under [a.sql], and another row holds [b.sql]; with [force] set and
    outside preview, [migrate] returns no outcome: the renaming update
    violates the unique constraint and the error is thrown. *)
Lemma known_fingerprint_is_skipped_counterexample :
  let w := Demo.a_world Demo.twins Demo.forced_run
             (Some [Demo.row_a; Demo.row_b2]) in
  In Demo.row_a [Demo.row_a; Demo.row_b2]
  /\ row_hash Demo.row_a = hash Demo.script_b
  /\ force (heap_get 0 (objects w)) = true
  /\ fst (Mayflower.migrate Demo.run_script
      Demo.script_ends Demo.elapsed 0 Demo.script_b w)
     = Throw (DbError (unique_violation (js "ux_migrations_filename"))).
Proof.
  cbv zeta. split; [left; reflexivity|]. split; [reflexivity|].
  split; [reflexivity|]. vm_compute. reflexivity.
Qed.

Lemma known_fingerprint_is_skipped_witness :
  let w := Demo.a_world Demo.twins Demo.forced_run (Some [Demo.row_a]) in
  ledger_of w = Some [Demo.row_a]
  /\ check_constraints [Demo.row_a] = None
  /\ In Demo.row_a [Demo.row_a]
  /\ row_hash Demo.row_a = hash Demo.script_b
  /\ exists res w',
       Mayflower.migrate Demo.run_script
           Demo.script_ends Demo.elapsed 0 Demo.script_b w
       = (Return res, w')
       /\ skipped res = true /\ runtime res = 0%Z.
Proof.
  cbv zeta.
  assert (H1 : ledger_of (Demo.a_world Demo.twins Demo.forced_run
                            (Some [Demo.row_a])) = Some [Demo.row_a])
    by reflexivity.
  assert (H2 : check_constraints [Demo.row_a] = None)
    by (vm_compute; reflexivity).
  assert (H3 : In Demo.row_a [Demo.row_a]) by (left; reflexivity).
  assert (H4 : row_hash Demo.row_a = hash Demo.script_b) by reflexivity.
  repeat (split; [assumption|]).
  destruct (@known_fingerprint_is_skipped Demo.U Demo.run_script
      Demo.script_ends
              Demo.elapsed 0 Demo.script_b _ _ _ H1 H2 H3 H4)
    as (out & w' & Hrun & _ & _ & _ & Hret & _).
  destruct Hret as (res & -> & _ & Hs & Ht).
  { right; right. intros r' [<-|[]]. vm_compute. discriminate. }
  exists res, w'. auto.
Defined.

Lemma conflict_without_force_witness :
  let w := Demo.a_world Demo.twins Demo.real_run (Some [Demo.row_a]) in
  ledger_of w = Some [Demo.row_a]
  /\ (forall r', In r' [Demo.row_a] -> row_hash r' <> hash Demo.script_a2)
  /\ In Demo.row_a [Demo.row_a]
  /\ row_filename Demo.row_a = name Demo.script_a2
  /\ force (heap_get 0 (objects w)) = false
  /\ exists w',
       Mayflower.migrate Demo.run_script
           Demo.script_ends Demo.elapsed 0 Demo.script_a2 w
       = (Throw (Error (conflict_message Demo.script_a2)), w')
       /\ current (database w') = current (database w).
Proof.
  cbv zeta.
  assert (H1 : ledger_of (Demo.a_world Demo.twins Demo.real_run
                            (Some [Demo.row_a])) = Some [Demo.row_a])
    by reflexivity.
  assert (H2 : forall r', In r' [Demo.row_a] ->
                          row_hash r' <> hash Demo.script_a2)
    by (intros r' [<-|[]]; vm_compute; discriminate).
  assert (H3 : In Demo.row_a [Demo.row_a]) by (left; reflexivity).
  assert (H4 : row_filename Demo.row_a = name Demo.script_a2) by reflexivity.
  assert (H5 : force (heap_get 0 (objects
                 (Demo.a_world Demo.twins Demo.real_run (Some [Demo.row_a]))))
               = false) by reflexivity.
  repeat (split; [assumption|]).
  destruct (@conflict_without_force Demo.U Demo.run_script
      Demo.script_ends Demo.elapsed
              0 Demo.script_a2 _ _ _ H1 H2 H3 H4 H5)
    as (w' & Hrun & _ & _ & Hc & _).
  exists w'. auto.
Defined.



(** C4, as stated, fails: [b.sql] now has the text once applied as
    [a.sql], while a row for [b.sql] exists; outside preview the stored
    filename is not updated and no skipped outcome is returned: the
    update is rejected and the table is as before. *)
Lemma rename_updates_filename_counterexample :
  let w := Demo.a_world Demo.twins Demo.real_run
             (Some [Demo.row_b2; Demo.row_a]) in
  let run := Mayflower.migrate Demo.run_script Demo.script_ends Demo.elapsed 0
               Demo.script_b w in
  In Demo.row_a [Demo.row_b2; Demo.row_a]
  /\ row_hash Demo.row_a = hash Demo.script_b
  /\ row_filename Demo.row_a <> name Demo.script_b
  /\ preview (heap_get 0 (objects w)) = false
  /\ fst run = Throw (DbError (unique_violation (js "ux_migrations_filename")))
  /\ ledger_of (snd run) = Some [Demo.row_b2; Demo.row_a].
Proof.
  cbv zeta. split; [right; left; reflexivity|]. split; [reflexivity|].
  split; [vm_compute; discriminate|]. split; [reflexivity|].
  split; vm_compute; reflexivity.
Qed.

Lemma rename_updates_filename_witness :
  let w := Demo.a_world Demo.twins Demo.real_run (Some [Demo.row_a]) in
  ledger_of w = Some [Demo.row_a]
  /\ check_constraints [Demo.row_a] = None
  /\ In Demo.row_a [Demo.row_a]
  /\ row_hash Demo.row_a = hash Demo.script_b
  /\ row_filename Demo.row_a <> name Demo.script_b
  /\ exists w',
       Mayflower.migrate Demo.run_script
           Demo.script_ends Demo.elapsed 0 Demo.script_b w
       = (Return (mkMigrationResult (name Demo.script_b) true 0
                    (rename_message Demo.script_b)), w')
       /\ ledger_of w'
          = Some (update_filename (name Demo.script_b) (hash Demo.script_b)
                    [Demo.row_a]).
Proof.
  cbv zeta.
  assert (H1 : ledger_of (Demo.a_world Demo.twins Demo.real_run
                            (Some [Demo.row_a])) = Some [Demo.row_a])
    by reflexivity.
  assert (H2 : check_constraints [Demo.row_a] = None)
    by (vm_compute; reflexivity).
  assert (H3 : In Demo.row_a [Demo.row_a]) by (left; reflexivity).
  assert (H4 : row_hash Demo.row_a = hash Demo.script_b) by reflexivity.
  assert (H5 : row_filename Demo.row_a <> name Demo.script_b)
    by (vm_compute; discriminate).
  repeat (split; [assumption|]).
  assert (H := @rename_updates_filename Demo.U Demo.run_script
      Demo.script_ends Demo.elapsed
                 0 Demo.script_b _ _ _ H1 H2 H3 H4 H5).
  cbv zeta in H. destruct H as (_ & _ & H).
  destruct H as (w' & pre & Hrun & _ & _ & Hl & _).
  { reflexivity. }
  { intros r' [<-|[]]. exact H5. }
  exists w'. auto.
Defined.

Lemma getAllScripts_sorted_sql_nonempty_witness :
  let w := Demo.a_world Demo.seeded Demo.real_run None in
  let files := [Demo.seed_sql; js "README.md"; js "003_blank.sql";
                Demo.create_sql] in
  readdir (fs w) = Some files
  /\ (forall n, In n files -> ends_in_sql n -> readfile (fs w) n <> None)
  /\ exists scripts,
       getAllScripts w = (Return scripts, w)
       /\ scripts = [new_SqlScript Demo.create_sql Demo.create_text;
                     new_SqlScript Demo.seed_sql Demo.seed_text]
       /\ StronglySorted (fun a b => lex_le (name a) (name b)) scripts
       /\ ~ In (js "README.md") (map name scripts)
       /\ ~ In (js "003_blank.sql") (map name scripts).
Proof.
  cbv zeta.
  assert (H1 : readdir (fs (Demo.a_world Demo.seeded Demo.real_run None))
               = Some [Demo.seed_sql; js "README.md"; js "003_blank.sql";
                       Demo.create_sql]) by reflexivity.
  assert (H2 : forall n,
                 In n [Demo.seed_sql; js "README.md"; js "003_blank.sql";
                       Demo.create_sql] ->
                 ends_in_sql n ->
                 readfile (fs (Demo.a_world Demo.seeded Demo.real_run None)) n
                 <> None).
  { intros n [<-|[<-|[<-|[<-|[]]]]] Hx; try (vm_compute; discriminate).
    exfalso. apply sqlExt_test_ends_in_sql in Hx. vm_compute in Hx.
    discriminate Hx. }
  repeat (split; [assumption|]).
  destruct (@getAllScripts_sorted_sql_nonempty Demo.U
              (Demo.a_world Demo.seeded Demo.real_run None)
              [Demo.seed_sql; js "README.md"; js "003_blank.sql";
               Demo.create_sql] H1 H2)
    as (scripts & Hrun & Hs & _).
  exists scripts. split; [exact Hrun|].
  assert (E : scripts = [new_SqlScript Demo.create_sql Demo.create_text;
                         new_SqlScript Demo.seed_sql Demo.seed_text]).
  { assert (Hv : getAllScripts (Demo.a_world Demo.seeded Demo.real_run None)
                 = (Return [new_SqlScript Demo.create_sql Demo.create_text;
                            new_SqlScript Demo.seed_sql Demo.seed_text],
                    Demo.a_world Demo.seeded Demo.real_run None))
      by (vm_compute; reflexivity).
    rewrite Hv in Hrun. injection Hrun as <-. reflexivity. }
  split; [exact E|]. split; [exact Hs|].
  rewrite E. split; vm_compute; intuition discriminate.
Defined.

Lemma failure_rolls_back_and_aborts_witness :
  let w := Demo.a_world Demo.failing Demo.real_run (Some []) in
  let syntax := script_error (js "syntax error") in
  (exists w',
     Mayflower.migrate Demo.run_script Demo.script_ends Demo.elapsed 0
       Demo.script_fail w = (Throw (DbError syntax), w')
     /\ ~ In QCommit (issued w w')
     /\ current (database w') = current (database w)
     /\ exists wf,
          Mayflower.migrateAll Demo.run_script Demo.script_ends Demo.elapsed
            (object_at 0) w = (Throw (DbError syntax), wf)
          /\ ended (database wf) = true
          /\ log (database wf) = log (database w'))
  /\ (exists w',
        Mayflower.migrate Demo.run_dropping Demo.script_ends Demo.elapsed 0
          Demo.script_drop w = (Throw (DbError undefined_table), w')
        /\ ~ In QCommit (issued w w')
        /\ In (QInsert (hash Demo.script_drop) 1000 7 Demo.c_sql)
              (issued w w')
        /\ current (database w') = current (database w)).
Proof.
  cbv zeta. split.
  - destruct (@failure_rolls_back_and_aborts Demo.U Demo.run_script
                Demo.script_ends Demo.elapsed 0 Demo.script_fail
                (Demo.a_world Demo.failing Demo.real_run (Some []))
                (script_error (js "syntax error")))
      as (w' & pre & mid & Hrun & _ & _ & _ & Hc & _ & Hcur & _ & Hall).
    + reflexivity.
    + vm_compute; reflexivity.
    + left. vm_compute; reflexivity.
    + exists w'. split; [exact Hrun|]. split; [exact Hc|].
      split; [rewrite Hcur; vm_compute; reflexivity|].
      destruct (Hall (object_at 0)
                  (Demo.a_world Demo.failing Demo.real_run (Some []))
                  (Demo.a_world Demo.failing Demo.real_run (Some []))
                  (Demo.a_world Demo.failing Demo.real_run (Some []))
                  [] [Demo.script_b] [])
        as (wf & Hf & He & Hlog & _);
        [vm_compute; reflexivity | vm_compute; reflexivity
        | vm_compute; reflexivity |].
      exists wf. auto.
  - destruct (@failure_rolls_back_and_aborts Demo.U Demo.run_dropping
                Demo.script_ends Demo.elapsed 0 Demo.script_drop
                (Demo.a_world Demo.failing Demo.real_run (Some []))
                undefined_table)
      as (w' & pre & mid & Hrun & Hq & _ & Hmid & Hc & _ & Hcur & _).
    + reflexivity.
    + vm_compute; reflexivity.
    + right. split; [reflexivity|].
      exists (Content None [Demo.dropping]).
      split; vm_compute; reflexivity.
    + exists w'. split; [exact Hrun|]. split; [exact Hc|].
      split; [|rewrite Hcur; vm_compute; reflexivity].
      assert (Hv : Mayflower.migrate Demo.run_dropping Demo.script_ends
                     Demo.elapsed 0 Demo.script_drop
                     (Demo.a_world Demo.failing Demo.real_run (Some []))
                   = (Throw (DbError undefined_table),
                      snd (Mayflower.migrate Demo.run_dropping
                             Demo.script_ends Demo.elapsed 0 Demo.script_drop
                             (Demo.a_world Demo.failing Demo.real_run
                                (Some [])))))
        by (vm_compute; reflexivity).
      rewrite Hv in Hrun. injection Hrun as <-.
      vm_compute. tauto.
Defined.

Lemma options_only_defaulted_witness :
  let w := Demo.a_world Demo.twins (mkOptions true false None) None in
  0 < length (objects w)
  /\ objects (snd (Mayflower.migrate Demo.run_script
      Demo.script_ends Demo.elapsed 0
                     Demo.script_a w)) = objects w
  /\ preview (heap_get 0 (objects
       (snd (Mayflower.migrateAll Demo.run_script Demo.script_ends Demo.elapsed
               (object_at 0) w)))) = true.
Proof.
  cbv zeta.
  assert (H1 : 0 < length (objects
                 (Demo.a_world Demo.twins (mkOptions true false None) None)))
    by (simpl; lia).
  split; [assumption|].
  assert (H := @options_only_defaulted Demo.U Demo.run_script
      Demo.script_ends Demo.elapsed
                 0 Demo.script_a _ H1).
  cbv zeta in H. destruct H as (Hm & (Hp & _) & _).
  split; [exact Hm | exact Hp].
Defined.



End MayflowerFacts.

(* ====================================================================== *)
(** * More on strings and fingerprints *)
(* ====================================================================== *)

Module StringsMore.

Import Pg Mayflower Shapes JsStringFacts.

(** ** The shape of a fingerprint *)

Lemma bytes_le_length (n : nat) (x : Z) : length (Md5.bytes_le n x) = n.
Proof. unfold Md5.bytes_le. rewrite length_map, length_seq. reflexivity. Qed.

Lemma bytes_le_range (n : nat) (x : Z) :
  Forall (fun b => (0 <= b < 256)%Z) (Md5.bytes_le n x).
Proof.
  unfold Md5.bytes_le. apply Forall_forall. intros b Hb.
  apply in_map_iff in Hb as (k & <- & _). apply Z.mod_pos_bound. lia.
Qed.

Lemma digest_length (msg : list Z) : length (Md5.digest msg) = 16.
Proof.
  unfold Md5.digest. cbv zeta. rewrite !length_app, !bytes_le_length.
  reflexivity.
Qed.

Lemma digest_range (msg : list Z) :
  Forall (fun b => (0 <= b < 256)%Z) (Md5.digest msg).
Proof.
  unfold Md5.digest. cbv zeta.
  repeat (apply Forall_app; split); apply bytes_le_range.
Qed.

Lemma hex_digit_is_hex (d : Z) :
  (0 <= d < 16)%Z -> is_hex_digit (Md5.hex_digit d) = true.
Proof.
  intros H.
  assert (E : (d = 0 \/ d = 1 \/ d = 2 \/ d = 3 \/ d = 4 \/ d = 5 \/ d = 6
               \/ d = 7 \/ d = 8 \/ d = 9 \/ d = 10 \/ d = 11 \/ d = 12
               \/ d = 13 \/ d = 14 \/ d = 15)%Z) by lia.
  repeat (destruct E as [->|E]; [reflexivity|]). subst d. reflexivity.
Qed.

Lemma hex_length (bytes : list Z) :
  length (Md5.hex bytes) = 2 * length bytes.
Proof.
  unfold Md5.hex. induction bytes as [|b bytes IH]; simpl; [reflexivity|].
  rewrite IH. lia.
Qed.

Lemma hex_digits (bytes : list Z) :
  Forall (fun b => (0 <= b < 256)%Z) bytes ->
  Forall (fun c => is_hex_digit c = true) (Md5.hex bytes).
Proof.
  unfold Md5.hex. induction 1 as [|b bytes Hb _ IH]; simpl; [constructor|].
  constructor; [|constructor; [|exact IH]]; apply hex_digit_is_hex.
  - split; [apply Z.div_pos; lia | apply Z.div_lt_upper_bound; lia].
  - apply Z.mod_pos_bound. lia.
Qed.

Lemma take_hex_app (n : nat) (a b : jsstring) :
  length a = n ->
  Forall (fun c => is_hex_digit c = true) a ->
  take_hex n (a ++ b) = Some b.
Proof.
  intros <-. induction 1 as [|c a Hc _ IH]; simpl; [reflexivity|].
  rewrite Hc. exact IH.
Qed.

Lemma take_dash_dash (s : jsstring) : take_dash (45%N :: s) = Some s.
Proof. reflexivity. Qed.

Lemma Forall_firstn {A} (P : A -> Prop) (n : nat) (l : list A) :
  Forall P l -> Forall P (firstn n l).
Proof.
  intros H. rewrite <- (firstn_skipn n l) in H.
  apply Forall_app in H. apply H.
Qed.

Lemma Forall_skipn {A} (P : A -> Prop) (n : nat) (l : list A) :
  Forall P l -> Forall P (skipn n l).
Proof.
  intros H. rewrite <- (firstn_skipn n l) in H.
  apply Forall_app in H. apply H.
Qed.

(** X7: Eight, four, four, four and twelve lower-case hexadecimal digits,
    with dashes between: [getHash] returns nothing else, whatever the
    text; in particular 36 characters, which fit the column. *)
Theorem getHash_shape (text : jsstring) :
  guid_shaped (getHash text) = true /\ length (getHash text) = 36.
Proof.
  unfold getHash. cbv zeta.
  assert (Hlen : length (Md5.md5_hex text) = 32).
  { unfold Md5.md5_hex. rewrite hex_length, digest_length. reflexivity. }
  assert (Hhex : Forall (fun c => is_hex_digit c = true) (Md5.md5_hex text)).
  { unfold Md5.md5_hex. apply hex_digits, digest_range. }
  generalize dependent (Md5.md5_hex text). intros d Hlen Hhex.
  assert (L1 : length (firstn 8 d) = 8) by (rewrite length_firstn; lia).
  assert (L2 : length (firstn 4 (skipn 8 d)) = 4)
    by (rewrite length_firstn, length_skipn; lia).
  assert (L3 : length (firstn 4 (skipn 12 d)) = 4)
    by (rewrite length_firstn, length_skipn; lia).
  assert (L4 : length (firstn 4 (skipn 16 d)) = 4)
    by (rewrite length_firstn, length_skipn; lia).
  assert (L5 : length (firstn 12 (skipn 20 d)) = 12)
    by (rewrite length_firstn, length_skipn; lia).
  split.
  - unfold guid_shaped. change (js "-") with [45%N].
    assert (F : forall i n, Forall (fun c => is_hex_digit c = true)
                              (firstn n (skipn i d)))
      by (intros; apply Forall_firstn, Forall_skipn; exact Hhex).
    rewrite (@take_hex_app 8 _ _ L1 (@Forall_firstn _ _ 8 _ Hhex)).
    cbn [and_then app]. rewrite take_dash_dash. cbn [and_then].
    rewrite (@take_hex_app 4 _ _ L2 (F 8 4)).
    cbn [and_then app]. rewrite take_dash_dash. cbn [and_then].
    rewrite (@take_hex_app 4 _ _ L3 (F 12 4)).
    cbn [and_then app]. rewrite take_dash_dash. cbn [and_then].
    rewrite (@take_hex_app 4 _ _ L4 (F 16 4)).
    cbn [and_then app]. rewrite take_dash_dash. cbn [and_then].
    rewrite <- (app_nil_r (firstn 12 (skipn 20 d))).
    rewrite (@take_hex_app 12 _ _ L5 (F 20 12)).
    reflexivity.
  - rewrite !length_app, L1, L2, L3, L4, L5. reflexivity.
Qed.

(** ** Line endings *)

Lemma to_crlf_head (t : jsstring) :
  match to_crlf t with c :: _ => c <> LF | [] => True end.
Proof.
  destruct t as [|c t]; simpl; [exact I|].
  destruct (N.eqb_spec c LF); [discriminate | assumption].
Qed.

(** Replacing CRLF undoes turning every LF into CRLF. *)
Lemma replace_crlf_to_crlf (t : jsstring) : replace_crlf (to_crlf t) = t.
Proof.
  induction t as [|c t IH]; [reflexivity|].
  cbn [to_crlf]. destruct (N.eqb_spec c LF) as [->|Hc].
  - change (replace_crlf (CR :: LF :: to_crlf t))
      with (LF :: replace_crlf (to_crlf t)).
    rewrite IH. reflexivity.
  - destruct (N.eqb_spec c CR) as [->|Hc'].
    + assert (Hh := to_crlf_head t).
      destruct (to_crlf t) as [|d y] eqn:E.
      * rewrite <- IH. reflexivity.
      * rewrite replace_crlf_cr by exact Hh. rewrite IH. reflexivity.
    + rewrite replace_crlf_other by exact Hc'. rewrite IH. reflexivity.
Qed.

Lemma has_crlf_tail (c : N) (t : jsstring) :
  has_crlf (c :: t) = false -> has_crlf t = false.
Proof. cbn [has_crlf]. intros H. apply orb_false_iff in H. apply H. Qed.

(** A text without CRLF is left as it is. *)
Lemma replace_crlf_without (t : jsstring) :
  has_crlf t = false -> replace_crlf t = t.
Proof.
  induction t as [|c t IH]; [reflexivity|]. intros H.
  assert (Ht := @has_crlf_tail _ _ H). specialize (IH Ht).
  destruct t as [|d t]; [reflexivity|].
  destruct (N.eqb_spec c CR) as [->|Hc].
  - destruct (N.eqb_spec d LF) as [->|Hd].
    + cbn in H. discriminate H.
    + rewrite replace_crlf_cr by exact Hd. rewrite IH. reflexivity.
  - rewrite replace_crlf_other by exact Hc. rewrite IH. reflexivity.
Qed.

(** X8: A file with LF line endings and the same file with every LF turned
    into CR LF (a checkout on another platform) have the same
    fingerprint, the md5 of the LF text, whatever their names. *)
Theorem fingerprint_survives_crlf_checkout (n n' text : jsstring) :
  has_crlf text = false ->
  hash (new_SqlScript n (to_crlf text)) = hash (new_SqlScript n' text)
  /\ hash (new_SqlScript n' text) = getHash text.
Proof.
  intros H. cbn [new_SqlScript hash].
  rewrite replace_crlf_to_crlf, (@replace_crlf_without _ H). split; reflexivity.
Qed.

(** ** Trimmed text *)

(** What [trim] returns starts and ends with characters it would not
    strip. *)
Lemma trim_ends (s : jsstring) (c : N) (t : jsstring) :
  trim s = c :: t ->
  is_trimmed_char c = false
  /\ exists u d, c :: t = u ++ [d] /\ is_trimmed_char d = false.
Proof.
  unfold trim. intros H.
  destruct (trim_start s) as [|c0 t0] eqn:E0; [discriminate H|].
  assert (Hc0 := @trim_start_head _ _ _ E0).
  destruct (@trim_start_last (rev t0) _ Hc0) as (u & Hu).
  cbn [rev] in H. rewrite Hu, rev_app_distr in H. cbn in H.
  injection H as <- <-. split; [exact Hc0|].
  destruct (trim_start (rev (c0 :: t0))) as [|d v] eqn:E1.
  - cbn [rev] in E1. rewrite Hu in E1. destruct u; discriminate E1.
  - assert (Hd := @trim_start_head _ _ _ E1).
    exists (rev v), d. split; [|exact Hd].
    cbn [rev] in E1. rewrite Hu in E1.
    apply (f_equal (@rev N)) in E1. rewrite rev_app_distr in E1.
    cbn in E1. exact E1.
Qed.

Lemma trim_fixed (s : jsstring) (c d : N) (u : jsstring) :
  s = u ++ [d] -> s = c :: tl s ->
  is_trimmed_char c = false -> is_trimmed_char d = false ->
  trim s = s.
Proof.
  intros Hs Hs' Hc Hd. unfold trim.
  rewrite Hs' at 1. rewrite (@trim_start_fixed _ _ Hc), <- Hs'.
  rewrite Hs, rev_app_distr. cbn [rev app].
  rewrite (@trim_start_fixed _ _ Hd).
  change (d :: rev u) with ([d] ++ rev u).
  rewrite rev_app_distr, rev_involutive. reflexivity.
Qed.

(** X6: The text of a script, which is what the database is sent, is
    trimmed for good: trimming it again changes nothing, and it neither
    starts nor ends with a character that [trim] strips.  It is empty,
    so that [getAllScripts] leaves the script out, exactly when the file
    holds nothing but such characters. *)
Theorem script_text_is_trimmed (n text : jsstring) :
  let s := new_SqlScript n text in
  trim (sql s) = sql s
  /\ (forall c t, sql s = c :: t -> is_trimmed_char c = false)
  /\ (forall u d, sql s = u ++ [d] -> is_trimmed_char d = false)
  /\ (truthy (sql s) = false
      <-> Forall (fun c => is_trimmed_char c = true) text).
Proof.
  cbn [new_SqlScript sql]. cbv zeta.
  assert (Hends := trim_ends text).
  split; [|split; [|split]].
  - destruct (trim text) as [|c t] eqn:E; [reflexivity|].
    destruct (Hends c t eq_refl) as (Hc & u & d & Hu & Hd).
    eapply trim_fixed; eauto.
  - intros c t E. apply (Hends c t E).
  - intros u d E. destruct (trim text) as [|c t] eqn:E'.
    + destruct u; discriminate E.
    + destruct (Hends c t eq_refl) as (_ & u' & d' & Hu & Hd).
      rewrite E in Hu. apply app_inj_tail in Hu as [_ ->]. exact Hd.
  - rewrite <- trim_nil. unfold truthy.
    destruct (trim text); split; congruence.
Qed.

Lemma fingerprint_survives_crlf_checkout_witness :
  let text := Demo.select_1 ++ [LF] ++ Demo.select_2 in
  has_crlf text = false
  /\ hash (new_SqlScript Demo.a_sql (to_crlf text))
     = hash (new_SqlScript Demo.b_sql text)
  /\ hash (new_SqlScript Demo.b_sql text) = getHash text.
Proof.
  cbv zeta. split; [vm_compute; reflexivity|].
  apply (@fingerprint_survives_crlf_checkout Demo.a_sql Demo.b_sql
           (Demo.select_1 ++ [LF] ++ Demo.select_2)).
  vm_compute; reflexivity.
Defined.

End StringsMore.

(* ====================================================================== *)
(** * More on the script loader *)
(* ====================================================================== *)

Module LoaderMore.

Import Pg Mayflower JsStringFacts.

Lemma str_le_refl (a : jsstring) : str_le a a.
Proof. unfold str_le, str_leb. rewrite str_ltb_irrefl. reflexivity. Qed.

Lemma str_le_antisym (a b : jsstring) : str_le a b -> str_le b a -> a = b.
Proof.
  unfold str_le, str_leb. rewrite !negb_true_iff. intros H1 H2.
  apply str_ltb_total; assumption.
Qed.

(** A list has one sorted arrangement. *)
Lemma sorted_unique (l : list jsstring) :
  forall l', StronglySorted str_le l -> StronglySorted str_le l' ->
             Permutation l l' -> l = l'.
Proof.
  induction l as [|x l IH]; intros l' Hs Hs' Hp.
  - apply Permutation_nil in Hp. congruence.
  - destruct l' as [|y l'].
    + symmetry in Hp. apply Permutation_nil in Hp. discriminate.
    + inversion Hs as [|? ? Hsl Hx]; subst.
      inversion Hs' as [|? ? Hsl' Hy]; subst.
      assert (E : x = y).
      { rewrite Forall_forall in Hx, Hy.
        assert (Hyin : In y (x :: l))
          by (apply (Permutation_in _ (Permutation_sym Hp)); left; reflexivity).
        assert (Hxin : In x (y :: l'))
          by (apply (Permutation_in _ Hp); left; reflexivity).
        destruct Hyin as [E|Hyin]; [exact E|].
        destruct Hxin as [E|Hxin]; [symmetry; exact E|].
        apply str_le_antisym; auto. }
      subst y. f_equal. apply IH; auto.
      eapply Permutation_cons_inv; eassumption.
Qed.

(** [sort] does not depend on the order of its input. *)
Lemma sort_of_permutation (l l' : list jsstring) :
  Permutation l l' -> sort l = sort l'.
Proof.
  intros Hp. apply sorted_unique; try apply sort_sorted.
  rewrite (sort_perm l), (sort_perm l'). exact Hp.
Qed.

Section Loader.

Variable U : Type.

Lemma load_scripts_agree (w w' : world U) (names : list jsstring) :
  (forall n, readfile (fs w) n = readfile (fs w') n) ->
  forall scripts,
    fst (load_scripts names scripts w) = fst (load_scripts names scripts w').
Proof.
  intros Hf. induction names as [|n names IH]; intros scripts; simpl; auto.
  unfold getScript. rewrite <- Hf.
  destruct (readfile (fs w) n); simpl; auto.
Qed.

(** X4: [getAllScripts] gives the same scripts, or fails on the same file,
    in whatever order the directory is listed. *)
Theorem listing_order_is_irrelevant (w w' : world U)
    (files files' : list jsstring) :
  readdir (fs w) = Some files ->
  readdir (fs w') = Some files' ->
  Permutation files files' ->
  (forall n, readfile (fs w) n = readfile (fs w') n) ->
  fst (getAllScripts w) = fst (getAllScripts w').
Proof.
  intros Hd Hd' Hp Hf. unfold getAllScripts, readDir. cbn [bind].
  rewrite Hd, Hd'.
  rewrite (@sort_of_permutation (filter sqlExt_test files)
             (filter sqlExt_test files'))
    by (apply MayflowerFacts.filter_Permutation; exact Hp).
  apply load_scripts_agree. exact Hf.
Qed.

Lemma load_scripts_first_unreadable (w : world U) (names : list jsstring) :
  StronglySorted str_le names ->
  forall scripts n,
    In n names -> readfile (fs w) n = None ->
    exists m,
      load_scripts names scripts w = (Throw (FsError m), w)
      /\ In m names /\ readfile (fs w) m = None
      /\ forall m', In m' names -> readfile (fs w) m' = None -> str_le m m'.
Proof.
  induction 1 as [|x names Hs IH Hx]; intros scripts n Hn Hr; [destruct Hn|].
  cbn [load_scripts bind]. unfold getScript.
  destruct (readfile (fs w) x) as [text|] eqn:E.
  - destruct Hn as [->|Hn]; [congruence|].
    destruct (IH (if truthy (sql (new_SqlScript x text))
                  then scripts ++ [new_SqlScript x text] else scripts)
                 n Hn Hr) as (m & Hrun & Hm & Hrm & Hleast).
    exists m. split; [exact Hrun|]. split; [right; exact Hm|].
    split; [exact Hrm|]. intros m' [<-|Hm'] Hr'; [congruence | auto].
  - exists x. split; [reflexivity|]. split; [left; reflexivity|].
    split; [exact E|]. intros m' [<-|Hm'] _; [apply str_le_refl|].
    rewrite Forall_forall in Hx. auto.
Qed.

(** X5: When a file matching the pattern cannot be read, [getAllScripts]
    throws the error of the first such file in the sorted order and
    returns no script at all; files that do not match are never read. *)
Theorem unreadable_script_aborts_load (w : world U) (files : list jsstring)
    (n : jsstring) :
  readdir (fs w) = Some files ->
  In n files -> sqlExt_test n = true -> readfile (fs w) n = None ->
  exists m,
    getAllScripts w = (Throw (FsError m), w)
    /\ In m files /\ sqlExt_test m = true /\ readfile (fs w) m = None
    /\ forall m', In m' files -> sqlExt_test m' = true ->
                  readfile (fs w) m' = None -> str_le m m'.
Proof.
  intros Hd Hn Hx Hr. unfold getAllScripts, readDir. cbn [bind]. rewrite Hd.
  assert (Hp := sort_perm (filter sqlExt_test files)).
  assert (Hin : forall m, In m (sort (filter sqlExt_test files))
                          <-> In m files /\ sqlExt_test m = true).
  { intros m. rewrite <- filter_In. split; apply Permutation_in;
      [exact Hp | symmetry; exact Hp]. }
  destruct (@load_scripts_first_unreadable w _
              (sort_sorted (filter sqlExt_test files)) [] n
              (proj2 (Hin n) (conj Hn Hx)) Hr)
    as (m & Hrun & Hm & Hrm & Hleast).
  exists m. split; [exact Hrun|]. apply Hin in Hm as [Hm Hmx].
  repeat (split; [assumption|]).
  intros m' Hm' Hx' Hr'. apply Hleast; [apply Hin; auto | exact Hr'].
Qed.

End Loader.

Lemma listing_order_is_irrelevant_witness :
  let relisted := mkFs (Some [Demo.a_sql; Demo.b_sql])
                       (readfile Demo.twins) in
  let w := Demo.a_world Demo.twins Demo.real_run None in
  let w' := Demo.a_world relisted Demo.real_run None in
  Permutation [Demo.b_sql; Demo.a_sql] [Demo.a_sql; Demo.b_sql]
  /\ fst (getAllScripts w) = fst (getAllScripts w').
Proof.
  cbv zeta. split; [apply perm_swap|].
  apply (@listing_order_is_irrelevant Demo.U
           (Demo.a_world Demo.twins Demo.real_run None)
           (Demo.a_world
              (mkFs (Some [Demo.a_sql; Demo.b_sql]) (readfile Demo.twins))
              Demo.real_run None)
           [Demo.b_sql; Demo.a_sql] [Demo.a_sql; Demo.b_sql]).
  - reflexivity.
  - reflexivity.
  - apply perm_swap.
  - intros n. reflexivity.
Defined.

Lemma unreadable_script_aborts_load_witness :
  let gone := js "gone.sql" in
  let files := [gone; js "notes.txt"; Demo.b_sql; Demo.a_sql] in
  let w := Demo.a_world (mkFs (Some files) (readfile Demo.twins))
             Demo.real_run None in
  readfile (fs w) gone = None
  /\ exists m,
       getAllScripts w = (Throw (FsError m), w)
       /\ In m files /\ sqlExt_test m = true /\ readfile (fs w) m = None
       /\ forall m', In m' files -> sqlExt_test m' = true ->
                     readfile (fs w) m' = None -> str_le m m'.
Proof.
  cbv zeta. split; [vm_compute; reflexivity|].
  apply (@unreadable_script_aborts_load Demo.U
           (Demo.a_world
              (mkFs (Some [js "gone.sql"; js "notes.txt"; Demo.b_sql;
                           Demo.a_sql])
                    (readfile Demo.twins))
              Demo.real_run None)
           [js "gone.sql"; js "notes.txt"; Demo.b_sql; Demo.a_sql]
           (js "gone.sql")).
  - reflexivity.
  - left. reflexivity.
  - vm_compute; reflexivity.
  - vm_compute; reflexivity.
Defined.

End LoaderMore.

(* ====================================================================== *)
(** * More on the bookkeeping table *)
(* ====================================================================== *)

Module TableMore.

Import Pg Mayflower PgFacts JsStringFacts.

Lemma NoDup_snoc {A} (l : list A) (x : A) :
  NoDup l -> ~ In x l -> NoDup (l ++ [x]).
Proof.
  intros Hl Hx. apply (Permutation_NoDup (l := x :: l)).
  - apply Permutation_cons_append.
  - constructor; assumption.
Qed.

(** A row of a new hash and a new filename can be inserted. *)
Lemma insert_ok (rs : list row) (h n : jsstring) (d t : Z) :
  check_constraints rs = None ->
  (forall r, In r rs -> row_hash r <> h) ->
  (forall r, In r rs -> row_filename r <> n) ->
  check_constraints (rs ++ [Row h n d t]) = None.
Proof.
  rewrite !check_constraints_None, !map_app. cbn [map row_hash row_filename].
  intros [Hh Hn] Nh Nn. split; apply NoDup_snoc; auto;
    rewrite in_map_iff; intros (r & E & Hr); [eapply Nh | eapply Nn]; eauto.
Qed.

Lemma update_by_filename_names (h : jsstring) (d t : Z) (n : jsstring)
    (rs : list row) :
  map row_filename (update_by_filename h d t n rs) = map row_filename rs.
Proof.
  unfold update_by_filename. rewrite map_map. apply map_ext.
  intros r. destruct (has_filename n r); reflexivity.
Qed.

Lemma update_by_filename_absent (h : jsstring) (d t : Z) (n : jsstring)
    (rs : list row) :
  (forall r, In r rs -> row_filename r <> n) ->
  update_by_filename h d t n rs = rs.
Proof.
  intros H. unfold update_by_filename. rewrite <- (map_id rs) at 2.
  apply map_ext_in. intros r Hr. destruct (has_filename n r) eqn:E; auto.
  apply has_filename_true in E. elim (H r Hr E).
Qed.

Lemma update_by_filename_hashes (h : jsstring) (d t : Z) (n : jsstring)
    (rs : list row) (x : jsstring) :
  In x (map row_hash (update_by_filename h d t n rs)) ->
  x = h \/ In x (map row_hash rs).
Proof.
  unfold update_by_filename. rewrite map_map, in_map_iff.
  intros (r & E & Hr). destruct (has_filename n r); simpl in E; subst; auto.
  right. apply in_map; exact Hr.
Qed.

(** Giving the row of a filename a hash no row has keeps the
    constraints. *)
Lemma update_by_filename_ok (h : jsstring) (d t : Z) (n : jsstring)
    (rs : list row) :
  check_constraints rs = None ->
  (forall r, In r rs -> row_hash r <> h) ->
  check_constraints (update_by_filename h d t n rs) = None.
Proof.
  rewrite !check_constraints_None, update_by_filename_names.
  intros [Hh Hn] Hfree. split; [|exact Hn].
  induction rs as [|x rs IH]; simpl; [constructor|].
  simpl in Hh, Hn. inversion Hh as [|? ? Hxh Hh']; subst.
  inversion Hn as [|? ? Hxn Hn']; subst.
  assert (Hfree' : forall r, In r rs -> row_hash r <> h)
    by (intros r Hr; apply Hfree; right; exact Hr).
  destruct (has_filename n x) eqn:E; simpl.
  - apply has_filename_true in E. subst n.
    rewrite update_by_filename_absent.
    + constructor; [|exact Hh']. rewrite in_map_iff.
      intros (r & Er & Hr). exact (Hfree' r Hr Er).
    + intros r Hr Er. apply Hxn. rewrite <- Er. apply in_map; exact Hr.
  - constructor; [|apply IH; assumption].
    intros Hin. apply update_by_filename_hashes in Hin as [Hin|Hin].
    + apply (Hfree x); [left; reflexivity | exact Hin].
    + contradiction.
Qed.

(** Under the unique constraint a lookup by filename finds the row,
    alone. *)
Lemma filter_filename_unique (rs : list row) (r : row) :
  NoDup (map row_filename rs) -> In r rs ->
  filter (has_filename (row_filename r)) rs = [r].
Proof.
  induction rs as [|x rs IH]; simpl; [tauto|].
  intros Hnd Hin. inversion Hnd as [|? ? Hx Hrs]; subst.
  destruct Hin as [->|Hin].
  - unfold has_filename at 1. rewrite str_eqb_refl. f_equal.
    apply filter_filename_absent. intros y Hy E. apply Hx. rewrite <- E.
    apply in_map; exact Hy.
  - destruct (has_filename (row_filename r) x) eqn:E.
    + apply has_filename_true in E. elim Hx. rewrite E.
      apply in_map; exact Hin.
    + apply IH; assumption.
Qed.

Lemma update_by_filename_others (h : jsstring) (d t : Z) (n : jsstring)
    (rs : list row) (x : row) :
  In x rs -> row_filename x <> n -> In x (update_by_filename h d t n rs).
Proof.
  intros Hx Nn. unfold update_by_filename. apply in_map_iff. exists x.
  split; [|exact Hx].
  destruct (has_filename n x) eqn:E; [|reflexivity].
  apply has_filename_true in E. contradiction.
Qed.

End TableMore.

(* ====================================================================== *)
(** * More on the runs of the migrator *)
(* ====================================================================== *)

Module RunsMore.

Import Pg Mayflower Constructor Shapes Conditions JsStringFacts PgFacts
  MayflowerFacts.
Import TableMore.

Section Runs.

Variable U : Type.
Variable run_script : jsstring -> content U -> pg_error + content U.
Variable script_ends : jsstring -> content U -> option (content U).
Variable elapsed : jsstring -> content U -> Z.

Local Abbreviation migrate :=
  (Mayflower.migrate run_script script_ends elapsed).
Local Abbreviation migrate_each :=
  (Mayflower.migrate_each run_script script_ends elapsed).
Local Abbreviation migrateAll :=
  (Mayflower.migrateAll run_script script_ends elapsed).
Local Abbreviation createMigrationsTable :=
  (Mayflower.createMigrationsTable run_script script_ends).

(** Simplify the statements issued between two states of a run. *)
Ltac sent_goal :=
  try unfold issued; cbn; rewrite <- ?app_assoc;
  first [ rewrite skipn_length_app | rewrite skipn_all ];
  cbn [app].

Ltac with_prefix qs := eexists; exists qs.

(** One step of a run in [H]: compute, then use what is known of the
    first stuck test or split on it. *)
Ltac step_run H :=
  cbn in H;
  match type of H with
  | context [match ?x with _ => _ end] =>
      lazymatch x with
      | context [match _ with _ => _ end] => fail
      | _ =>
          match goal with
          | E : x = _ |- _ => rewrite E in H
          | _ => destruct x eqn:?
          end
      end
  end.

Ltac run_all H :=
  unfold Mayflower.migrate, Mayflower.createMigrationsTable in H;
  repeat step_run H; cbn in H.

(** ** createMigrationsTable *)


(** ** Transactions *)

(** X9: Started outside a transaction, [migrate] ends outside one.  It
    sends BEGIN at most once, and then the script once, and COMMIT and
    ROLLBACK at most once each and at least one of them; COMMIT only
    outside preview.  A returned outcome is not skipped exactly when the
    script was sent, and then COMMIT was sent and no ROLLBACK, or in
    preview ROLLBACK and no COMMIT.  When [migrate] throws after BEGIN,
    the last statement it has sent is ROLLBACK. *)
Theorem migrate_brackets_its_transaction (l : nat) (s : SqlScript)
    (w : world U) :
  txn (database w) = None ->
  let out := fst (migrate l s w) in
  let w' := snd (migrate l s w) in
  let qs := issued w w' in
  txn (database w') = None
  /\ count is_begin qs <= 1
  /\ count is_script qs = count is_begin qs
  /\ count is_commit qs <= 1
  /\ count is_rollback qs <= 1
  /\ count is_begin qs <= count is_commit qs + count is_rollback qs
  /\ (count is_commit qs = 1 ->
      preview (heap_get l (objects w)) = false /\ count is_begin qs = 1)
  /\ (forall res, out = Return res ->
        (skipped res = false <-> count is_script qs = 1)
        /\ (skipped res = false ->
            if preview (heap_get l (objects w))
            then count is_rollback qs = 1 /\ count is_commit qs = 0
            else count is_commit qs = 1 /\ count is_rollback qs = 0))
  /\ (forall e, out = Throw e -> count is_begin qs = 1 ->
        last qs QBegin = QRollback).
Proof.
  intros Htx. cbv zeta.
  destruct (migrate l s w) as [out w'] eqn:H. cbn [fst snd].
  destruct w as [dir tbl sch te [[led usr] tx lg en] fsys objs clk con].
  cbn in Htx. subst tx. cbn [objects].
  destruct (preview (heap_get l objs)) eqn:P.
  all: unfold Mayflower.migrate, Mayflower.createMigrationsTable in H.
  all: repeat (cbn in H; rewrite ?P in H; step_run H).
  all: cbn in H; rewrite ?P in H; cbn in H.
  all: inversion H; subst; clear H.
  all: sent_goal; unfold count; cbn.
  all: repeat split; try lia; try discriminate; try reflexivity.
  all: try (intros; exfalso; lia).
  all: try (intros ? E; discriminate E).
  all: try (match goal with
            | E : Return _ = Return _ |- _ => injection E as <-
            end; cbn; intros; first [reflexivity | discriminate | lia]).
Qed.

(** ** Applying a script *)

(** X10: Outside preview, a script whose fingerprint and filename have no
    row, and which runs without touching the table, is executed in a
    transaction that is committed; exactly one row is added, with the
    fingerprint, the filename, the date and the measured duration; the
    outcome is not skipped.  A table that was not there is created
    first. *)
Theorem new_script_is_applied_and_recorded (l : nat) (s : SqlScript)
    (w : world U) (c' : content U) :
  preview (heap_get l (objects w)) = false ->
  flag_sound w ->
  check_constraints (rows_of w) = None ->
  (forall r, In r (rows_of w) -> row_hash r <> hash s) ->
  (forall r, In r (rows_of w) -> row_filename r <> name s) ->
  run_script (sql s) (found_by_script w) = inr c' ->
  ledger c' = Some (rows_of w) ->
  exists w' pre,
    migrate l s w
    = (Return (mkMigrationResult (name s) false
                 (elapsed (sql s) (found_by_script w)) (success_message s)),
       w')
    /\ current (database w')
       = Content
           (Some (rows_of w
                  ++ [Row (hash s) (name s) (clock w)
                          (elapsed (sql s) (found_by_script w))]))
           (user c')
    /\ txn (database w') = None
    /\ _tableExists w' = true
    /\ issued w w'
       = pre ++ [QBegin; QScript (sql s);
                 QInsert (hash s) (clock w)
                   (elapsed (sql s) (found_by_script w)) (name s);
                 QCommit]
    /\ Forall (fun q => is_select q = true \/ q = QCreateTable) pre.
Proof.
  intros P Hflag Hc Hh Hn Hrun Hkeep.
  assert (Hins := @insert_ok (rows_of w) (hash s) (name s) (clock w)
                    (elapsed (sql s) (found_by_script w)) Hc Hh Hn).
  apply filter_hash_absent in Hh. apply filter_filename_absent in Hn.
  destruct c' as [led' usr']. cbn in Hkeep. subst led'.
  destruct w as [dir tbl sch te [[led usr] tx lg en] fsys objs clk con].
  unfold flag_sound, found_by_script, rows_of, ledger_of in *.
  cbn in P, Hflag, Hc, Hh, Hn, Hrun, Hins |- *.
  unfold Mayflower.migrate, Mayflower.createMigrationsTable.
  destruct led as [rs|].
  - destruct te;
      [with_prefix [QSelectByHash (hash s); QSelectByFilename (name s)]
      |with_prefix [QTableExists sch tbl; QSelectByHash (hash s);
                    QSelectByFilename (name s)]].
    all: cbn; rewrite ?P, Hh; cbn; rewrite ?P, Hn; cbn; rewrite Hrun; cbn;
      rewrite ?P; cbn; rewrite Hins; cbn; rewrite ?P; cbn.
    all: split; [reflexivity|]. all: split; [reflexivity|].
    all: split; [reflexivity|]. all: split; [reflexivity|].
    all: split; [sent_goal; reflexivity|].
    all: repeat (constructor; [left; reflexivity|]); constructor.
  - destruct te; [elim Hflag; reflexivity|]. cbn in Hins, Hrun.
    with_prefix [QTableExists sch tbl; QCreateTable; QSelectByHash (hash s);
                 QSelectByFilename (name s)].
    cbn; rewrite ?P; cbn; rewrite Hrun; cbn;
      rewrite ?P; cbn; rewrite Hins; cbn; rewrite ?P; cbn.
    split; [reflexivity|]. split; [reflexivity|].
    split; [reflexivity|]. split; [reflexivity|].
    split; [sent_goal; reflexivity|].
    repeat (constructor; [first [left; reflexivity | right; reflexivity]|]).
    constructor.
Qed.

(** X11: Outside preview and with [force], a script whose fingerprint has no
    row while a row holds its filename, and which runs without touching
    the table, is executed and committed; the row of that filename is
    updated, not a row inserted: the table keeps its size, the one row
    of that filename now bears the new fingerprint, the date and the
    duration, and the other rows are as they were. *)
Theorem forced_script_replaces_row (l : nat) (s : SqlScript) (w : world U)
    (rs : list row) (r : row) (c' : content U) :
  preview (heap_get l (objects w)) = false ->
  force (heap_get l (objects w)) = true ->
  ledger_of w = Some rs -> check_constraints rs = None ->
  (forall r', In r' rs -> row_hash r' <> hash s) ->
  In r rs -> row_filename r = name s ->
  run_script (sql s) (current (database w)) = inr c' ->
  ledger c' = Some rs ->
  let t := elapsed (sql s) (current (database w)) in
  let rs' := update_by_filename (hash s) (clock w) t (name s) rs in
  exists w' pre,
    migrate l s w
    = (Return (mkMigrationResult (name s) false t (success_message s)), w')
    /\ current (database w') = Content (Some rs') (user c')
    /\ txn (database w') = None
    /\ length rs' = length rs
    /\ filter (has_filename (name s)) rs'
       = [Row (hash s) (name s) (clock w) t]
    /\ (forall x, In x rs -> row_filename x <> name s -> In x rs')
    /\ issued w w'
       = pre ++ [QBegin; QScript (sql s);
                 QUpdateByFilename (hash s) (clock w) t (name s); QCommit]
    /\ Forall (fun q => is_select q = true) pre.
Proof.
  intros P F Hl Hc Hh Hr Hn Hrun Hkeep t rs'.
  assert (Hup := @update_by_filename_ok (hash s) (clock w) t (name s) rs
                   Hc Hh).
  fold rs' in Hup.
  assert (Hin : In (Row (hash s) (name s) (clock w) t) rs')
    by (apply update_by_filename_In with (r := r); assumption).
  assert (Hone := @filter_filename_unique rs' _
                    (proj2 (proj1 (check_constraints_None rs') Hup)) Hin).
  cbn [row_filename] in Hone.
  assert (Hothers : forall x, In x rs -> row_filename x <> name s -> In x rs')
    by (intros; apply update_by_filename_others; assumption).
  assert (Hlen : length rs' = length rs) by apply length_map.
  destruct (@filter_filename_present (name s) rs r Hr Hn) as (r0 & rest & Hf).
  apply filter_hash_absent in Hh.
  destruct c' as [led' usr']. cbn in Hkeep. subst led'.
  subst rs' t.
  destruct w as [dir tbl sch te [[led usr] tx lg en] fsys objs clk con].
  unfold ledger_of in *.
  cbn in P, F, Hl, Hrun, Hup, Hin, Hone, Hothers, Hlen |- *.
  subst led.
  unfold Mayflower.migrate, Mayflower.createMigrationsTable.
  destruct te;
    [with_prefix [QSelectByHash (hash s); QSelectByFilename (name s)]
    |with_prefix [QTableExists sch tbl; QSelectByHash (hash s);
                  QSelectByFilename (name s)]].
  all: cbn; rewrite ?P, Hh; cbn; rewrite ?P, Hf; cbn; rewrite F; cbn;
    rewrite Hrun; cbn; rewrite ?P; cbn; rewrite Hup; cbn; rewrite ?P; cbn.
  all: split; [reflexivity|]. all: split; [reflexivity|].
  all: split; [reflexivity|]. all: split; [exact Hlen|].
  all: split; [exact Hone|]. all: split; [exact Hothers|].
  all: split; [sent_goal; reflexivity|].
  all: repeat constructor.
Qed.

(** ** The batch, piece by piece *)

(** What [migrate] leaves alone, and the name of its outcome. *)
Lemma migrate_frame (l : nat) (s : SqlScript) (w : world U) :
  let w' := snd (migrate l s w) in
  fs w' = fs w /\ console w' = console w /\ directory w' = directory w
  /\ ended (database w') = ended (database w)
  /\ (txn (database w) = None -> txn (database w') = None)
  /\ (forall r, fst (migrate l s w) = Return r -> res_name r = name s).
Proof.
  cbv zeta. destruct (migrate l s w) as [out w'] eqn:H. cbn [fst snd].
  destruct w as [dir tbl sch te [[led usr] tx lg en] fsys objs clk con].
  run_all H.
  all: inversion H; subst; clear H; cbn.
  all: repeat split; try reflexivity; try discriminate.
  all: try (intros; subst; reflexivity).
  all: try (intros ? E; injection E as <-; reflexivity).
Qed.

Lemma migrate_each_frame (l : nat) (scripts : list SqlScript) :
  forall results (w : world U),
    let w' := snd (migrate_each l scripts results w) in
    fs w' = fs w /\ console w' = console w /\ objects w' = objects w
    /\ directory w' = directory w
    /\ ended (database w') = ended (database w)
    /\ (txn (database w) = None -> txn (database w') = None)
    /\ (forall rs, fst (migrate_each l scripts results w) = Return rs ->
          map res_name rs = map res_name results ++ map name scripts).
Proof.
  induction scripts as [|s scripts IH]; intros results w; cbv zeta.
  - cbn. repeat split; auto. intros rs E. injection E as <-.
    rewrite app_nil_r. reflexivity.
  - cbn [Mayflower.migrate_each bind].
    destruct (migrate_frame l s w) as (F1 & F2 & F3 & F4 & F5 & F6).
    assert (Fo := migrate_objects run_script script_ends elapsed l s w).
    destruct (migrate l s w) as [[r|e] w1]; cbn [fst snd] in *.
    + destruct (IH (results ++ [r]) w1)
        as (G1 & G2 & G3 & G3' & G4 & G5 & G6).
      repeat split; try congruence; auto.
      intros rs E. rewrite (G6 rs E), map_app, <- app_assoc. cbn.
      rewrite (F6 r eq_refl). reflexivity.
    + repeat split; auto. discriminate.
Qed.

Lemma report_run (l : nat) (results : list MigrationResult) :
  forall n (w : world U),
    report l results n w
    = (Return (n + length (filter skipped results)),
       with_console
         (console w
          ++ (if match output (heap_get l (objects w)) with
                 | Some b => b
                 | None => false
                 end
              then filter truthy (map message results) else []))
         w).
Proof.
  induction results as [|r results IH]; intros n w.
  - cbn. rewrite Nat.add_0_r.
    destruct w as [? ? ? ? ? ? objs ? ?]; cbn.
    destruct (output (heap_get l objs)) as [[|]|];
      rewrite app_nil_r; reflexivity.
  - cbn [report bind option_of gets].
    destruct (match output (heap_get l (objects w)) with
              | Some b => b | None => false end) eqn:Eo.
    + destruct (truthy (message r)) eqn:Em; cbn [andb];
        cbn [console_log modify bind ret]; rewrite IH;
        destruct w; cbn in *; rewrite Eo, ?Em; cbn;
        destruct (skipped r); cbn; rewrite <- ?app_assoc;
        repeat f_equal; lia.
    + rewrite andb_false_r. cbn [ret bind]. rewrite IH, Eo.
      destruct w; cbn in *; 
        destruct (skipped r); cbn; repeat f_equal; lia.
Qed.

Lemma getAllScripts_fs (w w' : world U) :
  fs w = fs w' -> directory w = directory w' ->
  fst (getAllScripts w) = fst (getAllScripts w').
Proof.
  intros E D. unfold getAllScripts, readDir. cbn [bind]. rewrite <- E, <- D.
  destruct (readdir (fs w)); [|reflexivity].
  apply LoaderMore.load_scripts_agree. intros n. rewrite E. reflexivity.
Qed.

(** The reference and the world after the defaults. *)
Lemma default_options_run (arg : argument) (w : world U) :
  exists l w0,
    default_options arg w = (Return l, w0)
    /\ fs w0 = fs w /\ directory w0 = directory w
    /\ database w0 = database w /\ console w0 = console w
    /\ _tableExists w0 = _tableExists w
    /\ (not_dangling arg w ->
        preview (heap_get l (objects w0)) = preview (given arg w)
        /\ force (heap_get l (objects w0)) = force (given arg w)
        /\ output (heap_get l (objects w0)) = Some (prints (given arg w))).
Proof.
  destruct arg as [|k].
  - rewrite default_options_fresh. eexists _, _. split; [reflexivity|].
    destruct w as [dir tbl sch te d fsys objs clk con]; cbn.
    repeat (split; try reflexivity).
    all: unfold heap_get; rewrite app_nth2, Nat.sub_diag by lia; reflexivity.
  - rewrite default_options_object. eexists _, _. split; [reflexivity|].
    unfold prints, given, not_dangling.
    destruct (output (heap_get k (objects w))) as [b|] eqn:Eo;
      destruct w as [dir tbl sch te d fsys objs clk con]; cbn in *;
      do 5 (split; [reflexivity|]); intros Hk; rewrite ?Eo; auto;
      rewrite (@heap_get_set_same k _ objs Hk); repeat split.
Qed.

(** [migrateAll], end to end: the defaults, the scripts of the
    directory, the batch on an opened connection, the connection
    closed, the report. *)
Lemma migrateAll_summary (arg : argument) (w : world U) :
  exists l w0,
    default_options arg w = (Return l, w0)
    /\ match fst (getAllScripts w) with
       | Throw e => migrateAll arg w = (Throw e, w0)
       | Return scripts =>
           let wc := with_database (db_connect (database w0)) w0 in
           match migrate_each l scripts [] wc with
           | (Throw e, w3) =>
               migrateAll arg w
               = (Throw e, with_database (db_end (database w3)) w3)
           | (Return results, w3) =>
               migrateAll arg w
               = (Return results,
                  with_console
                    (console w3
                     ++ (if match output (heap_get l (objects w3)) with
                            | Some b => b
                            | None => false
                            end
                         then printed results else []))
                    (with_database (db_end (database w3)) w3))
           end
       end.
Proof.
  destruct (default_options_run arg w) as (l & w0 & E & F & D & _).
  exists l, w0. split; [exact E|].
  rewrite <- (@getAllScripts_fs w0 w F D).
  unfold Mayflower.migrateAll. cbn [bind]. rewrite E.
  assert (Hw := getAllScripts_world w0).
  destruct (getAllScripts w0) as [[scripts|e] w2]; cbn [fst snd] in *;
    subst w2; [|reflexivity].
  cbn [modify try_catch bind].
  destruct (migrate_each l scripts [] _) as [[results|e] w3];
    [|reflexivity].
  cbn [ret bind modify]. rewrite report_run. cbn [option_of gets bind].
  unfold printed.
  destruct w3 as [dir tbl sch te d fsys objs clk con]; cbn.
  destruct (output (heap_get l objs)) as [[|]|]; cbn;
    try (destruct (length (filter skipped results)); cbn);
    rewrite ?app_nil_r, <- ?app_assoc; reflexivity.
Qed.

(** ** The batch as a whole *)

(** X12: [migrateAll] returns one outcome for each script that
    [getAllScripts] loads, in the order of the scripts and under their
    names. *)
Theorem migrateAll_one_outcome_per_script
    (arg : argument) (w : world U) (results : list MigrationResult) :
  fst (migrateAll arg w) = Return results ->
  exists scripts,
    fst (getAllScripts w) = Return scripts
    /\ map res_name results = map name scripts.
Proof.
  intros H. destruct (migrateAll_summary arg w) as (l & w0 & _ & S).
  destruct (fst (getAllScripts w)) as [scripts|e].
  - exists scripts. split; [reflexivity|]. cbv zeta in S.
    match type of S with
    | context [migrate_each l scripts [] ?wc] =>
        destruct (migrate_each_frame l scripts [] wc)
          as (_ & _ & _ & _ & _ & _ & G);
        destruct (migrate_each l scripts [] wc) as [[rs|e] w3]
    end; rewrite S in H; cbn in H; [|discriminate H].
    injection H as <-. exact (G rs eq_refl).
  - rewrite S in H. discriminate H.
Qed.

(** X13: What [migrateAll] prints: nothing when it throws or when [output]
    was given as false; otherwise the messages of the outcomes in order
    and then the count of the skipped ones, when there is one. *)
Theorem migrateAll_console (arg : argument) (w : world U) :
  not_dangling arg w ->
  console (snd (migrateAll arg w))
  = console w
    ++ match fst (migrateAll arg w) with
       | Return results =>
           if prints (given arg w) then printed results else []
       | Throw _ => []
       end.
Proof.
  intros Hd.
  destruct (default_options_run arg w)
    as (l & w0 & E & _ & _ & _ & C & _ & O).
  destruct (O Hd) as (_ & _ & Ho). clear O.
  destruct (migrateAll_summary arg w) as (l' & w0' & E' & S).
  rewrite E in E'. injection E' as <- <-.
  destruct (fst (getAllScripts w)) as [scripts|e].
  - cbv zeta in S.
    match type of S with
    | context [migrate_each l scripts [] ?wc] =>
        destruct (migrate_each_frame l scripts [] wc)
          as (_ & G & Go & _);
        destruct (migrate_each l scripts [] wc) as [[rs|e] w3]
    end; rewrite S; cbn [fst snd] in *.
    + rewrite Go. destruct w0; cbn in *. rewrite Ho.
      destruct w3; cbn in *. congruence.
    + rewrite app_nil_r. destruct w0, w3; cbn in *. congruence.
  - rewrite S. cbn. rewrite app_nil_r. exact C.
Qed.

(** X14: The connection of [migrateAll]: when the scripts cannot be loaded
    the error is thrown before a connection is opened, and the database
    receives nothing; otherwise the connection is closed when
    [migrateAll] is over, whether it returns or throws, with no
    transaction left open. *)
Theorem migrateAll_connection (arg : argument) (w : world U) :
  let w' := snd (migrateAll arg w) in
  match fst (getAllScripts w) with
  | Throw e =>
      fst (migrateAll arg w) = Throw e /\ database w' = database w
  | Return scripts =>
      ended (database w') = true /\ txn (database w') = None
  end.
Proof.
  cbv zeta.
  destruct (default_options_run arg w)
    as (l & w0 & E & _ & _ & D & _).
  destruct (migrateAll_summary arg w) as (l' & w0' & E' & S).
  rewrite E in E'. injection E' as <- <-.
  destruct (fst (getAllScripts w)) as [scripts|e].
  - cbv zeta in S.
    match type of S with
    | context [migrate_each l scripts [] ?wc] =>
        destruct (migrate_each l scripts [] wc) as [[rs|e] w3]
    end; rewrite S; cbn [fst snd].
    all: destruct w3 as [? ? ? ? d3 ? ? ? ?]; cbn; auto.
  - rewrite S. cbn. auto.
Qed.

(** ** A preview of the batch *)

Lemma migrate_preview_run (l : nat) (s : SqlScript) (w : world U) :
  preview (heap_get l (objects w)) = true ->
  txn (database w) = None ->
  script_ends (sql s) (current (database w)) = None ->
  let w' := snd (migrate l s w) in
  current (database w') = current (database w)
  /\ exists qs,
       log (database w') = log (database w) ++ qs
       /\ Forall (fun q => is_ledger_write q = false /\ is_commit q = false)
            qs.
Proof.
  intros P Htx He. cbv zeta.
  destruct (migrate l s w) as [out w'] eqn:H. cbn [snd].
  destruct w as [dir tbl sch te [[led usr] tx lg en] fsys objs clk con].
  cbn in Htx, P, He. subst tx.
  unfold Mayflower.migrate, Mayflower.createMigrationsTable in H.
  repeat (cbn in H; rewrite ?P, ?He in H; step_run H).
  all: cbn in H; rewrite ?P, ?He in H; cbn in H.
  all: inversion H; subst; clear H; cbn.
  all: try congruence.
  all: split; [reflexivity|].
  all: rewrite <- ?app_assoc; eexists; split; [reflexivity|].
  all: cbn; repeat constructor.
Qed.

Lemma migrate_each_preview_run (l : nat) (scripts : list SqlScript) :
  forall results (w : world U),
    preview (heap_get l (objects w)) = true ->
    txn (database w) = None ->
    (forall s, In s scripts ->
               script_ends (sql s) (current (database w)) = None) ->
    let w' := snd (migrate_each l scripts results w) in
    current (database w') = current (database w)
    /\ exists qs,
         log (database w') = log (database w) ++ qs
         /\ Forall (fun q => is_ledger_write q = false
                             /\ is_commit q = false) qs.
Proof.
  induction scripts as [|s scripts IH]; intros results w P T He; cbv zeta.
  - cbn. split; [reflexivity|]. exists []. rewrite app_nil_r. auto.
  - cbn [Mayflower.migrate_each bind].
    destruct (@migrate_preview_run l s w P T (He s (or_introl eq_refl)))
      as (C & qs & L & Q).
    destruct (migrate_frame l s w) as (_ & _ & _ & _ & T' & _).
    assert (Fo := migrate_objects run_script script_ends elapsed l s w).
    destruct (migrate l s w) as [[r|e] w1]; cbn [fst snd] in *.
    + destruct (IH (results ++ [r]) w1) as (C2 & qs2 & L2 & Q2).
      { rewrite Fo. exact P. }
      { exact (T' T). }
      { intros s' Hs'. rewrite C. apply He. right; exact Hs'. }
      split; [congruence|]. exists (qs ++ qs2).
      rewrite L2, L, app_assoc. split; [reflexivity|].
      apply Forall_app; auto.
    + split; [exact C|]. exists qs. auto.
Qed.

(** X16: A preview of the whole batch changes nothing when no script
    ends the transaction it is run in: whether [migrateAll] returns or
    throws, what the database holds afterwards is what a new connection
    saw before, and the statements sent include no COMMIT and no write
    to the bookkeeping table nor its creation.  In preview every script
    runs on that same state of the database. *)
Theorem preview_run_changes_nothing (arg : argument) (w : world U) :
  not_dangling arg w ->
  preview (given arg w) = true ->
  (forall scripts s,
     fst (getAllScripts w) = Return scripts -> In s scripts ->
     script_ends (sql s) (committed (database w)) = None) ->
  let w' := snd (migrateAll arg w) in
  committed (database w') = committed (database w)
  /\ Forall (fun q => is_ledger_write q = false /\ is_commit q = false)
       (issued w w').
Proof.
  intros Hd P He. cbv zeta.
  destruct (default_options_run arg w)
    as (l & w0 & E & _ & _ & D & _ & _ & O).
  destruct (O Hd) as (P0 & _ & _). clear O. rewrite P in P0.
  destruct (migrateAll_summary arg w) as (l' & w0' & E' & S).
  rewrite E in E'. injection E' as <- <-.
  destruct (fst (getAllScripts w)) as [scripts|e].
  - cbv zeta in S.
    set (wc := with_database (db_connect (database w0)) w0) in S.
    assert (Tc : txn (database wc) = None) by reflexivity.
    assert (Pc : preview (heap_get l (objects wc)) = true).
    { subst wc. destruct w0; exact P0. }
    assert (Cc : current (database wc) = committed (database w)).
    { subst wc. cbn. rewrite D. reflexivity. }
    assert (Hc : forall s, In s scripts ->
                   script_ends (sql s) (current (database wc)) = None).
    { intros s Hs. rewrite Cc. exact (He scripts s eq_refl Hs). }
    destruct (migrate_each_frame l scripts [] wc)
      as (_ & _ & _ & _ & _ & T3 & _).
    destruct (@migrate_each_preview_run l scripts [] wc Pc Tc Hc)
      as (C & qs & L & Q).
    assert (Lc : log (database wc) = log (database w)).
    { subst wc. cbn. rewrite D. reflexivity. }
    destruct (migrate_each l scripts [] wc) as [[rs|e] w3];
      rewrite S; cbn [snd] in *; unfold issued; cbn;
      unfold committed in Cc; rewrite (T3 Tc), C, Cc, L, Lc,
        skipn_length_app; auto.
  - rewrite S. cbn [snd]. rewrite D. split; [reflexivity|].
    unfold issued. rewrite D, skipn_all. constructor.
Qed.

(** ** Nothing to migrate *)

(** X15: With no script to run (no file matches the pattern, or every
    matching file is blank) [migrateAll] returns no outcome, sends the
    database nothing at all, so that the bookkeeping table is not even
    created, prints nothing, and still closes the connection. *)
Theorem nothing_to_migrate (arg : argument) (w : world U) :
  fst (getAllScripts w) = Return [] ->
  let w' := snd (migrateAll arg w) in
  fst (migrateAll arg w) = Return []
  /\ issued w w' = []
  /\ committed (database w') = committed (database w)
  /\ console w' = console w
  /\ ended (database w') = true.
Proof.
  intros Hs. cbv zeta.
  destruct (default_options_run arg w)
    as (l & w0 & E & _ & _ & D & C & _).
  destruct (migrateAll_summary arg w) as (l' & w0' & E' & S).
  rewrite E in E'. injection E' as <- <-.
  rewrite Hs in S. cbn in S. rewrite S. cbn.
  unfold issued. cbn. rewrite D, skipn_all.
  repeat split; auto.
  destruct (match output (heap_get l (objects w0)) with
            | Some b => b | None => false end);
    rewrite app_nil_r; exact C.
Qed.

(** ** A migrator fresh from the constructor *)

(** X1: Whatever the options of the constructor, the first thing [migrate]
    sends for a new migrator is the catalog query for its table, under
    the schema and the table given to the constructor when they are
    non-empty strings, and under [public] and [migrations] otherwise;
    neither name is ever empty. *)
Theorem fresh_migrator_asks_for_its_table
    (options : option settings) (DATABASE_URL : option jsstring)
    (cwd_migrations : jsstring) (d : db U) (files : filesystem)
    (objs : heap) (now : Z) (out : list jsstring)
    (l : nat) (s : SqlScript) :
  let this := new_PgMayflower options DATABASE_URL cwd_migrations in
  let w := world_of this d files objs now out in
  let given_or (f : settings -> option jsstring) (default : jsstring) :=
    match options with
    | Some o => match f o with Some (c :: n) => c :: n | _ => default end
    | None => default
    end in
  this_schema this = given_or set_schema (js "public")
  /\ this_table this = given_or set_table (js "migrations")
  /\ this_schema this <> [] /\ this_table this <> []
  /\ exists qs,
       issued w (snd (migrate l s w))
       = QTableExists (this_schema this) (this_table this) :: qs.
Proof.
  cbv zeta.
  assert (Hs : this_schema (new_PgMayflower options DATABASE_URL
                              cwd_migrations) <> []).
  { destruct options as [[c dd t [[|x n]|]]|]; discriminate. }
  assert (Ht : this_table (new_PgMayflower options DATABASE_URL
                             cwd_migrations) <> []).
  { destruct options as [[c dd [[|x n]|] sc]|]; discriminate. }
  split; [destruct options as [[c dd t [[|x n]|]]|]; reflexivity|].
  split; [destruct options as [[c dd [[|x n]|] sc]|]; reflexivity|].
  split; [exact Hs|]. split; [exact Ht|].
  unfold world_of. cbn [this_tableExists new_PgMayflower].
  generalize (this_schema (new_PgMayflower options DATABASE_URL
                             cwd_migrations)).
  generalize (this_table (new_PgMayflower options DATABASE_URL
                            cwd_migrations)).
  generalize (this_directory (new_PgMayflower options DATABASE_URL
                                cwd_migrations)).
  intros dir tbl sch.
  destruct (migrate l s _) as [o w'] eqn:H. cbn [snd].
  destruct d as [[led usr] tx lg en].
  run_all H.
  all: inversion H; subst; clear H.
  all: unfold issued; cbn; rewrite ?skipn_length_app;
    eexists; cbn; try reflexivity.
  all: repeat rewrite <- app_assoc; rewrite skipn_length_app; reflexivity.
Qed.

(** ** Running again *)

Section KeptLedger.

(** Migration scripts leave the bookkeeping table alone, in what they
    do and in what they commit on their own. *)
Hypothesis scripts_keep_ledger :
  forall sql c c', run_script sql c = inr c' -> ledger c' = ledger c.

Hypothesis commits_keep_ledger :
  forall sql c k, script_ends sql c = Some k -> ledger k = ledger c.

Lemma row_eta (r : row) (h n : jsstring) :
  row_hash r = h -> row_filename r = n ->
  r = Row h n (row_execution_date r) (row_duration r).
Proof. destruct r; cbn; intros -> ->; reflexivity. Qed.

(** Outside preview, once [migrate] has returned, the table satisfies
    its constraints, has a row with the fingerprint and the name of the
    script, and still has every row of another fingerprint and another
    filename. *)
Lemma migrate_records (l : nat) (s : SqlScript) (w w1 : world U)
    (r1 : MigrationResult) :
  preview (heap_get l (objects w)) = false ->
  constraints_hold w ->
  migrate l s w = (Return r1, w1) ->
  exists rs1,
    ledger_of w1 = Some rs1 /\ check_constraints rs1 = None
    /\ recorded s rs1
    /\ forall x, In x (rows_of w) -> row_hash x <> hash s ->
                 row_filename x <> name s -> In x rs1.
Proof.
  intros P Hc H.
  destruct w as [dir tbl sch te [[led usr] tx lg en] fsys objs clk con].
  unfold constraints_hold, rows_of, ledger_of in *. cbn in P, Hc |- *.
  unfold Mayflower.migrate, Mayflower.createMigrationsTable in H.
  repeat (cbn in H; rewrite ?P in H; step_run H).
  all: cbn in H; rewrite ?P in H; cbn in H.
  all: try discriminate H.
  all: inversion H; subst; clear H.
  all: cbn.
  all: repeat match goal with
         | E : run_script _ _ = inr ?c, E' : ledger ?c = Some _ |- _ =>
             rewrite (@scripts_keep_ledger _ _ _ E) in E'; cbn in E';
             injection E' as E'; subst
         | E : length ?x = S _ |- _ =>
             destruct x eqn:?; [discriminate E | clear E]
         | E : filter _ _ = _ :: _ |- _ =>
             apply filter_head_In in E; destruct E as [? ?]
         | E : has_hash _ _ = true |- _ => apply has_hash_true in E
         | E : has_filename _ _ = true |- _ => apply has_filename_true in E
         | E : negb (str_eqb _ _) = false |- _ =>
             apply negb_false_iff, str_eqb_eq in E
         | E : _ :: _ = _ :: _ |- _ => injection E as ? ?; subst
         end.
  all: eexists; (split; [reflexivity|]).
  all: split; [first [assumption | apply Hc; reflexivity]|].
  all: unfold recorded.
  all: first
    [ split;
      [ do 2 eexists; apply in_or_app; right; left; reflexivity
      | intros x Hx _ _; apply in_or_app; left; exact Hx ]
    | split;
      [ do 2 eexists; eapply update_by_filename_In; eassumption
      | intros x Hx _ Hn; apply update_by_filename_others; assumption ]
    | split;
      [ do 2 eexists; eapply update_filename_renamed; eassumption
      | intros x Hx Hh _; apply update_filename_others; assumption ]
    | split;
      [ do 2 eexists; left; reflexivity | intros x [] ]
    | split;
      [ match goal with
        | Hr : In ?r _, Eh : row_hash ?r = _, En : row_filename ?r = _ |- _ =>
            exists (row_execution_date r), (row_duration r);
            rewrite <- (@row_eta r _ _ Eh En); exact Hr
        end
      | intros x Hx _ _; exact Hx ] ].
Qed.

(** A script with its row in the table is skipped: only lookups are
    sent, nothing is printed or changed but the log and the memo. *)
Lemma migrate_skips_recorded (l : nat) (s : SqlScript) (w : world U)
    (rs : list row) :
  ledger_of w = Some rs -> check_constraints rs = None -> recorded s rs ->
  exists w' qs,
    migrate l s w = (Return (new_MigrationResult (name s)), w')
    /\ current (database w') = current (database w)
    /\ txn (database w') = txn (database w)
    /\ log (database w') = log (database w) ++ qs
    /\ Forall (fun q => is_select q = true) qs.
Proof.
  intros Hl Hc (date & dur & Hr).
  assert (Hfind := @lookup_by_hash s rs _ Hc Hr eq_refl).
  destruct w as [dir tbl sch te [[led usr] tx lg en] fsys objs clk con].
  unfold ledger_of in *. cbn in Hl. subst led.
  unfold Mayflower.migrate, Mayflower.createMigrationsTable.
  destruct te;
    [with_prefix [QSelectByHash (hash s)]
    |with_prefix [QTableExists sch tbl; QSelectByHash (hash s)]].
  all: cbn; rewrite Hfind; cbn; rewrite str_eqb_refl; cbn.
  all: split; [reflexivity|]. all: split; [reflexivity|].
  all: split; [reflexivity|].
  all: split; [rewrite <- ?app_assoc; reflexivity | repeat constructor].
Qed.

Lemma migrate_each_skips_recorded (l : nat) (scripts : list SqlScript) :
  forall results (w : world U) rs,
    ledger_of w = Some rs -> check_constraints rs = None ->
    (forall s, In s scripts -> recorded s rs) ->
    exists w' qs,
      migrate_each l scripts results w
      = (Return (results
                 ++ map (fun s => new_MigrationResult (name s)) scripts), w')
      /\ current (database w') = current (database w)
      /\ txn (database w') = txn (database w)
      /\ log (database w') = log (database w) ++ qs
      /\ Forall (fun q => is_select q = true) qs.
Proof.
  induction scripts as [|s scripts IH]; intros results w rs Hl Hc Hall.
  - exists w, []. cbn. rewrite !app_nil_r. repeat split; auto.
  - destruct (@migrate_skips_recorded l s w rs Hl Hc
                (Hall s (or_introl eq_refl)))
      as (w1 & qs1 & Hrun & Hcur & Htx & Hlog & Hq).
    destruct (IH (results ++ [new_MigrationResult (name s)]) w1 rs)
      as (w2 & qs2 & Hrun2 & Hcur2 & Htx2 & Hlog2 & Hq2).
    + unfold ledger_of in *. rewrite Hcur. exact Hl.
    + exact Hc.
    + intros s' Hs'. apply Hall. right; exact Hs'.
    + exists w2, (qs1 ++ qs2). cbn [Mayflower.migrate_each bind].
      rewrite Hrun, Hrun2. rewrite <- app_assoc. cbn [map app].
      split; [reflexivity|]. split; [congruence|]. split; [congruence|].
      split; [rewrite Hlog2, Hlog, app_assoc; reflexivity|].
      apply Forall_app; split; assumption.
Qed.

Lemma NoDup_map_apart {A B} (f : A -> B) (done : list A) (s : A)
    (scripts : list A) (d : A) :
  NoDup (map f (done ++ s :: scripts)) -> In d done -> f d <> f s.
Proof.
  rewrite map_app. cbn [map]. intros H Hd E.
  apply NoDup_remove_2 in H. apply H. apply in_or_app. left.
  rewrite <- E. apply in_map. exact Hd.
Qed.

Lemma migrate_each_records (l : nat) (scripts : list SqlScript) :
  forall done results (w w1 : world U) results1,
    preview (heap_get l (objects w)) = false ->
    constraints_hold w -> all_recorded done w ->
    NoDup (map name (done ++ scripts)) ->
    NoDup (map hash (done ++ scripts)) ->
    migrate_each l scripts results w = (Return results1, w1) ->
    constraints_hold w1 /\ all_recorded (done ++ scripts) w1.
Proof.
  induction scripts as [|s scripts IH];
    intros done results w w1 results1 P Hc Hdone Hn Hh Hrun.
  - cbn in Hrun. injection Hrun as _ <-. rewrite app_nil_r. auto.
  - cbn [Mayflower.migrate_each bind] in Hrun.
    destruct (migrate l s w) as [[r|e] w'] eqn:Hs; [|discriminate Hrun].
    destruct (@migrate_records l s w w' r P Hc Hs)
      as (rs' & Hl' & Hc' & Hrec & Hkeep).
    assert (Ho := migrate_objects run_script script_ends elapsed l s w).
    rewrite Hs in Ho. cbn in Ho.
    assert (Ah := fun d => @NoDup_map_apart _ _ hash done s scripts d Hh).
    assert (An := fun d => @NoDup_map_apart _ _ name done s scripts d Hn).
    replace (done ++ s :: scripts) with ((done ++ [s]) ++ scripts) in *
      by (rewrite <- app_assoc; reflexivity).
    apply (IH (done ++ [s]) (results ++ [r]) w' w1 results1); auto.
    + rewrite Ho. exact P.
    + intros rs E. rewrite Hl' in E. injection E as <-. exact Hc'.
    + intros d Hd. exists rs'. split; [exact Hl'|].
      apply in_app_or in Hd as [Hd|[<-|[]]]; [|exact Hrec].
      destruct (Hdone d Hd) as (rs & Hl & date & dur & Hr).
      exists date, dur. apply Hkeep.
      * unfold rows_of. rewrite Hl. exact Hr.
      * cbn. apply Ah. exact Hd.
      * cbn. apply An. exact Hd.
Qed.

(** X18: Running [migrateAll] a second time changes nothing: when a run
    outside preview returned, over scripts with distinct names and
    distinct fingerprints, the next run over the same directory skips
    every script, sends the database nothing but queries and leaves it
    as it was. *)
Theorem second_run_skips_everything
    (l : nat) (w w1 : world U) (scripts : list SqlScript)
    (results : list MigrationResult) :
  l < length (objects w) ->
  preview (heap_get l (objects w)) = false ->
  txn (database w) = None ->
  constraints_hold w ->
  fst (getAllScripts w) = Return scripts ->
  NoDup (map name scripts) ->
  NoDup (map hash scripts) ->
  migrateAll (object_at l) w = (Return results, w1) ->
  exists w2,
    migrateAll (object_at l) w1
    = (Return (map (fun s => new_MigrationResult (name s)) scripts), w2)
    /\ current (database w2) = current (database w1)
    /\ Forall (fun q => is_select q = true) (issued w1 w2).
Proof.
  intros Hl P Htx Hc Hs Hn Hh Hrun.
  (* the first run *)
  destruct (default_options_run (object_at l) w)
    as (l0 & w0 & E & F0 & D0 & B0 & _ & _ & O).
  destruct (O Hl) as (P0 & _ & _). clear O. cbn [given] in P0.
  destruct (migrateAll_summary (object_at l) w) as (l0' & w0' & E' & S).
  rewrite E in E'. injection E' as <- <-.
  assert (l0 = l) by (rewrite default_options_object in E; congruence).
  subst l0. rewrite Hs in S. cbv zeta in S.
  set (wc := with_database (db_connect (database w0)) w0) in S.
  destruct (migrate_each_frame l scripts [] wc)
    as (F3 & _ & O3 & D3 & _ & T3 & _).
  destruct (migrate_each l scripts [] wc) as [[rs|e] w3] eqn:R;
    rewrite S in Hrun; [|discriminate Hrun].
  cbn [snd] in F3, O3, D3, T3.
  assert (Ec : current (database wc) = current (database w)).
  { subst wc. cbn. rewrite B0. unfold committed. rewrite Htx. reflexivity. }
  destruct (@migrate_each_records l scripts [] [] wc w3 rs) as (Hc3 & Hall).
  { subst wc. destruct w0; cbn in *. rewrite P0. exact P. }
  { unfold constraints_hold, ledger_of in *. rewrite Ec. exact Hc. }
  { intros s []. }
  { exact Hn. }
  { exact Hh. }
  { exact R. }
  cbn [app] in Hall.
  assert (T3' : txn (database w3) = None).
  { apply T3. reflexivity. }
  injection Hrun as <- <-.
  (* the second run *)
  match goal with
  | |- context [migrateAll (object_at l) ?w'] => set (w1 := w')
  end.
  assert (F1 : fs w1 = fs w).
  { subst w1 wc. destruct w3, w0; cbn in *. congruence. }
  assert (D1 : directory w1 = directory w).
  { subst w1 wc. destruct w3, w0; cbn in *. congruence. }
  assert (C1 : current (database w1) = current (database w3)).
  { subst w1. cbn. unfold committed. rewrite T3'. reflexivity. }
  assert (L1 : log (database w1) = log (database w3)).
  { reflexivity. }
  assert (T1 : txn (database w1) = None).
  { reflexivity. }
  destruct (default_options_run (object_at l) w1)
    as (l2 & v0 & E2 & _ & _ & B2 & _).
  destruct (migrateAll_summary (object_at l) w1) as (l2' & v0' & E2' & S2).
  rewrite E2 in E2'. injection E2' as <- <-.
  assert (l2 = l) by (rewrite default_options_object in E2; congruence).
  subst l2.
  rewrite (@getAllScripts_fs w1 w F1 D1), Hs in S2. cbv zeta in S2.
  set (vc := with_database (db_connect (database v0)) v0) in S2.
  assert (Ev : current (database vc) = current (database w1)
               /\ log (database vc) = log (database w1)).
  { subst vc. cbn. rewrite B2. unfold committed. rewrite T1.
    split; reflexivity. }
  destruct Ev as (Ev & Lv).
  destruct scripts as [|s0 scripts'].
  - cbn in S2. eexists. split; [exact S2|].
    unfold issued. cbn [database with_console with_database log current db_end].
    unfold committed. change (txn (db_connect (database v0))) with (@None (content U)).
    change (db_connect (database v0)) with (database vc).
    rewrite Ev, Lv. split; [reflexivity|].
    rewrite skipn_all. constructor.
  - destruct (Hall s0 (or_introl eq_refl)) as (rows & Hrows & _).
    destruct (@migrate_each_skips_recorded l (s0 :: scripts') [] vc rows)
      as (v3 & qs & R2 & C2 & T2 & L2 & Q2).
    { unfold ledger_of in *. rewrite Ev, C1. exact Hrows. }
    { apply Hc3. exact Hrows. }
    { intros s Hin. destruct (Hall s Hin) as (rows' & Hrows' & Hrec).
      rewrite Hrows in Hrows'. injection Hrows' as <-. exact Hrec. }
    cbn [app] in R2. rewrite R2 in S2.
    eexists. split; [exact S2|].
    assert (T2' : txn (database v3) = None).
    { rewrite T2. reflexivity. }
    unfold issued. cbn [database with_console with_database log current db_end].
    unfold committed. rewrite T2'. split; [congruence|].
    rewrite L2, Lv, skipn_length_app. exact Q2.
Qed.

(** ** A failure in the middle of the batch *)

(** When [migrate] throws, a bookkeeping table that was there is as it
    was. *)
Lemma migrate_throw_keeps (l : nat) (s : SqlScript) (w w' : world U)
    (e : js_error) :
  migrate l s w = (Throw e, w') ->
  txn (database w) = None ->
  txn (database w') = None
  /\ forall rs, ledger_of w = Some rs -> ledger_of w' = Some rs.
Proof.
  intros H Htx.
  destruct w as [dir tbl sch te [[led usr] tx lg en] fsys objs clk con].
  cbn in Htx. subst tx. unfold ledger_of. cbn.
  run_all H.
  all: try discriminate H.
  all: inversion H; subst; clear H; cbn.
  all: repeat match goal with
         | E : script_ends _ _ = Some _ |- _ =>
             apply commits_keep_ledger in E; cbn in E
         | E : run_script _ _ = inr _ |- _ =>
             apply scripts_keep_ledger in E; cbn in E
         end.
  all: split; [reflexivity|]; intros rs0 E0; try exact E0;
    try discriminate E0; try congruence.
Qed.

(** X17: A failing script does not undo the scripts before it: when the
    batch outside preview throws at a script, the scripts run before it
    keep their rows, outside any transaction, and the loop is over. *)
Theorem failed_batch_keeps_earlier_scripts
    (l : nat) (pre post : list SqlScript) (s : SqlScript)
    (w wm w' : world U) (results : list MigrationResult) (e : js_error) :
  preview (heap_get l (objects w)) = false ->
  txn (database w) = None ->
  constraints_hold w ->
  NoDup (map name pre) -> NoDup (map hash pre) ->
  migrate_each l pre [] w = (Return results, wm) ->
  migrate l s wm = (Throw e, w') ->
  migrate_each l (pre ++ s :: post) [] w = (Throw e, w')
  /\ all_recorded pre w'
  /\ txn (database w') = None.
Proof.
  intros P T Hc Hn Hh Hpre Hs.
  split.
  { rewrite migrate_each_app, Hpre. cbn [Mayflower.migrate_each bind].
    rewrite Hs. reflexivity. }
  destruct (@migrate_each_records l pre [] [] w wm results P Hc)
    as (_ & Hall); auto.
  { intros x []. }
  destruct (migrate_each_frame l pre [] w) as (_ & _ & _ & _ & _ & Tm & _).
  rewrite Hpre in Tm. cbn [snd] in Tm.
  destruct (@migrate_throw_keeps l s wm w' e Hs (Tm T)) as (T' & K).
  split; [|exact T'].
  intros x Hx. destruct (Hall x Hx) as (rs & Hrs & Hrec).
  exists rs. split; [apply K; exact Hrs | exact Hrec].
Qed.

(** ** The memo *)

Lemma migrate_flag_sound (l : nat) (s : SqlScript) (w : world U) :
  txn (database w) = None -> flag_sound w ->
  flag_sound (snd (migrate l s w)).
Proof.
  destruct (migrate l s w) as [out w'] eqn:H. cbn [snd].
  destruct w as [dir tbl sch te [[led usr] tx lg en] fsys objs clk con].
  unfold flag_sound, ledger_of. cbn. intros -> Hf.
  run_all H.
  all: inversion H; subst; clear H; cbn.
  all: repeat match goal with
         | E : script_ends _ _ = Some _ |- _ =>
             apply commits_keep_ledger in E; cbn in E
         | E : run_script _ _ = inr _ |- _ =>
             apply scripts_keep_ledger in E; cbn in E
         end.
  all: try congruence.
  all: try (intros; apply Hf; assumption).
  all: try (intros Ht; specialize (Hf Ht); congruence).
Qed.

Lemma migrate_each_flag_sound (l : nat) (scripts : list SqlScript) :
  forall results (w : world U),
    txn (database w) = None -> flag_sound w ->
    flag_sound (snd (migrate_each l scripts results w)).
Proof.
  induction scripts as [|s scripts IH]; intros results w T Hf; [exact Hf|].
  cbn [Mayflower.migrate_each bind].
  destruct (migrate_frame l s w) as (_ & _ & _ & _ & T' & _).
  assert (Hf' := migrate_flag_sound l s T Hf).
  destruct (migrate l s w) as [[r|e] w1]; cbn [fst snd] in *; auto.
Qed.

(** X19: The memo [_tableExists] is never stale: when it is sound before
    [migrateAll], over scripts that leave the bookkeeping table alone,
    it is sound afterwards, whether the run returns or throws. *)
Theorem migrateAll_keeps_memo_sound (arg : argument) (w : world U) :
  txn (database w) = None -> flag_sound w ->
  flag_sound (snd (migrateAll arg w)).
Proof.
  intros T Hf.
  destruct (default_options_run arg w)
    as (l & w0 & E & _ & _ & D & _ & Te & _).
  destruct (migrateAll_summary arg w) as (l' & w0' & E' & S).
  rewrite E in E'. injection E' as <- <-.
  assert (Hf0 : flag_sound w0).
  { unfold flag_sound, ledger_of in Hf |- *. rewrite Te, D. exact Hf. }
  destruct (fst (getAllScripts w)) as [scripts|e];
    [|rewrite S; exact Hf0].
  cbv zeta in S.
  set (wc := with_database (db_connect (database w0)) w0) in S.
  assert (Tc : txn (database wc) = None) by reflexivity.
  assert (Hfc : flag_sound wc).
  { unfold flag_sound, ledger_of in Hf0 |- *. subst wc. cbn.
    unfold committed. rewrite D, T. rewrite D in Hf0. exact Hf0. }
  destruct (migrate_each_frame l scripts [] wc)
    as (_ & _ & _ & _ & _ & T3 & _).
  assert (Hf3 := @migrate_each_flag_sound l scripts [] wc Tc Hfc).
  destruct (migrate_each l scripts [] wc) as [[rs|e] w3];
    rewrite S; cbn [snd] in *;
    unfold flag_sound, ledger_of in Hf3 |- *; cbn; unfold committed;
    rewrite (T3 Tc); exact Hf3.
Qed.

End KeptLedger.

End Runs.

(** ** The theorems at work *)

Lemma demo_commits_keep_ledger :
  forall sql (c k : content Demo.U),
    Demo.script_ends sql c = Some k -> ledger k = ledger c.
Proof.
  intros sql c k H. unfold Demo.script_ends in H.
  destruct (Demo.run_script sql c) as [e|c'] eqn:E; [discriminate H|].
  destruct (str_eqb _ _); [|discriminate H].
  injection H as <-. exact (demo_scripts_keep_ledger sql c E).
Defined.

Lemma migrate_brackets_its_transaction_witness :
  let w := Demo.a_world Demo.twins Demo.real_run None in
  let run := Mayflower.migrate Demo.run_script Demo.script_ends
               Demo.elapsed 0 Demo.script_a w in
  let qs := issued w (snd run) in
  txn (database w) = None
  /\ fst run = Return (mkMigrationResult Demo.a_sql false 7
                         (success_message Demo.script_a))
  /\ txn (database (snd run)) = None
  /\ count is_script qs = 1
  /\ count is_commit qs = 1
  /\ count is_rollback qs = 0.
Proof.
  cbv zeta. split; [reflexivity|].
  assert (Hv : fst (Mayflower.migrate Demo.run_script Demo.script_ends
                      Demo.elapsed 0 Demo.script_a
                      (Demo.a_world Demo.twins Demo.real_run None))
               = Return (mkMigrationResult Demo.a_sql false 7
                           (success_message Demo.script_a)))
    by (vm_compute; reflexivity).
  split; [exact Hv|].
  destruct (@migrate_brackets_its_transaction Demo.U Demo.run_script
              Demo.script_ends Demo.elapsed 0 Demo.script_a
              (Demo.a_world Demo.twins Demo.real_run None) eq_refl)
    as (H1 & _ & _ & _ & _ & _ & _ & Hret & _).
  destruct (Hret (mkMigrationResult Demo.a_sql false 7
                    (success_message Demo.script_a)) Hv)
    as (Hsent & Hclose).
  split; [exact H1|]. split; [apply Hsent; reflexivity|].
  exact (Hclose eq_refl).
Defined.

Lemma new_script_is_applied_and_recorded_witness :
  let w := Demo.a_world Demo.twins Demo.real_run (Some [Demo.row_b2]) in
  let s := Demo.script_a in
  exists w',
    Mayflower.migrate Demo.run_script Demo.script_ends Demo.elapsed 0 s w
    = (Return (mkMigrationResult Demo.a_sql false 7 (success_message s)), w')
    /\ ledger_of w' = Some [Demo.row_b2; Row (hash s) Demo.a_sql 1000 7]
    /\ txn (database w') = None.
Proof.
  cbv zeta.
  destruct (@new_script_is_applied_and_recorded Demo.U Demo.run_script
      Demo.script_ends
              Demo.elapsed 0 Demo.script_a
              (Demo.a_world Demo.twins Demo.real_run (Some [Demo.row_b2]))
              (Content (Some [Demo.row_b2]) [Demo.select_1]))
    as (w' & pre & Hrun & Hcur & Htx & _).
  - reflexivity.
  - intros _. discriminate.
  - vm_compute; reflexivity.
  - intros r [<-|[]]. vm_compute. discriminate.
  - intros r [<-|[]]. vm_compute. discriminate.
  - vm_compute; reflexivity.
  - reflexivity.
  - exists w'. split; [exact Hrun|]. split; [|exact Htx].
    unfold ledger_of. rewrite Hcur. reflexivity.
Defined.

Lemma forced_script_replaces_row_witness :
  let w := Demo.a_world Demo.twins Demo.forced_run (Some [Demo.row_a]) in
  let s := Demo.script_a2 in
  exists w',
    Mayflower.migrate Demo.run_script Demo.script_ends Demo.elapsed 0 s w
    = (Return (mkMigrationResult Demo.a_sql false 7 (success_message s)), w')
    /\ ledger_of w'
       = Some (update_by_filename (hash s) 1000 7 Demo.a_sql [Demo.row_a])
    /\ filter (has_filename Demo.a_sql)
         (update_by_filename (hash s) 1000 7 Demo.a_sql [Demo.row_a])
       = [Row (hash s) Demo.a_sql 1000 7].
Proof.
  cbv zeta.
  destruct (@forced_script_replaces_row Demo.U Demo.run_script Demo.script_ends
              Demo.elapsed 0 Demo.script_a2
              (Demo.a_world Demo.twins Demo.forced_run (Some [Demo.row_a]))
              [Demo.row_a] Demo.row_a
              (Content (Some [Demo.row_a]) [Demo.select_2]))
    as (w' & pre & Hrun & Hcur & _ & _ & Hrow & _).
  - reflexivity.
  - reflexivity.
  - reflexivity.
  - vm_compute; reflexivity.
  - intros r [<-|[]]. vm_compute. discriminate.
  - left. reflexivity.
  - reflexivity.
  - vm_compute; reflexivity.
  - reflexivity.
  - exists w'. split; [exact Hrun|]. split; [|exact Hrow].
    unfold ledger_of. rewrite Hcur. reflexivity.
Defined.

Lemma migrateAll_one_outcome_per_script_witness :
  let w := Demo.a_world Demo.seeded Demo.real_run None in
  let run := Mayflower.migrateAll Demo.run_script Demo.script_ends Demo.elapsed
               (object_at 0) w in
  let results := match fst run with Return rs => rs | Throw _ => [] end in
  fst run = Return results
  /\ exists scripts,
       fst (getAllScripts w) = Return scripts
       /\ map res_name results = map name scripts.
Proof.
  cbv zeta.
  assert (H : fst (Mayflower.migrateAll Demo.run_script
      Demo.script_ends Demo.elapsed
                     (object_at 0)
                     (Demo.a_world Demo.seeded Demo.real_run None))
              = Return
                  match
                    fst (Mayflower.migrateAll Demo.run_script
                        Demo.script_ends Demo.elapsed
                           (object_at 0)
                           (Demo.a_world Demo.seeded Demo.real_run None))
                  with
                  | Return rs => rs
                  | Throw _ => []
                  end)
    by (vm_compute; reflexivity).
  split; [exact H|].
  apply (@migrateAll_one_outcome_per_script Demo.U Demo.run_script
      Demo.script_ends
           Demo.elapsed (object_at 0)
           (Demo.a_world Demo.seeded Demo.real_run None)
           match
             fst (Mayflower.migrateAll Demo.run_script
                 Demo.script_ends Demo.elapsed
                    (object_at 0)
                    (Demo.a_world Demo.seeded Demo.real_run None))
           with
           | Return rs => rs
           | Throw _ => []
           end).
  exact H.
Defined.

Lemma migrateAll_console_witness :
  let w := Demo.a_world Demo.twins (mkOptions false false None) None in
  let run := Mayflower.migrateAll Demo.run_script Demo.script_ends Demo.elapsed
               (object_at 0) w in
  not_dangling (object_at 0) w
  /\ console (snd run)
     = console w
       ++ match fst run with
          | Return results =>
              if prints (given (object_at 0) w) then printed results else []
          | Throw _ => []
          end.
Proof.
  cbv zeta.
  assert (H : not_dangling (object_at 0)
                (Demo.a_world Demo.twins (mkOptions false false None) None))
    by (cbn; lia).
  split; [exact H|].
  exact (@migrateAll_console Demo.U Demo.run_script
      Demo.script_ends Demo.elapsed
           (object_at 0)
           (Demo.a_world Demo.twins (mkOptions false false None) None) H).
Defined.

Lemma preview_run_changes_nothing_witness :
  let w := Demo.a_world Demo.seeded Demo.dry_run None in
  let w' := snd (Mayflower.migrateAll Demo.run_script Demo.script_ends
                   Demo.elapsed (object_at 0) w) in
  preview (given (object_at 0) w) = true
  /\ In (QScript Demo.seed_text) (issued w w')
  /\ committed (database w') = committed (database w)
  /\ Forall (fun q => is_ledger_write q = false /\ is_commit q = false)
       (issued w w').
Proof.
  cbv zeta. split; [reflexivity|]. split; [vm_compute; tauto|].
  apply (@preview_run_changes_nothing Demo.U Demo.run_script
           Demo.script_ends Demo.elapsed
           (object_at 0) (Demo.a_world Demo.seeded Demo.dry_run None)).
  - cbn; lia.
  - reflexivity.
  - intros scripts s E Hs.
    assert (Hv : fst (getAllScripts
                        (Demo.a_world Demo.seeded Demo.dry_run None))
                 = Return [new_SqlScript Demo.create_sql Demo.create_text;
                           new_SqlScript Demo.seed_sql Demo.seed_text])
      by (vm_compute; reflexivity).
    rewrite Hv in E. injection E as <-.
    destruct Hs as [<-|[<-|[]]]; vm_compute; reflexivity.
Defined.

Lemma migrateAll_keeps_memo_sound_witness :
  let w := Demo.a_world Demo.twins Demo.real_run None in
  flag_sound w
  /\ flag_sound (snd (Mayflower.migrateAll Demo.run_script
      Demo.script_ends Demo.elapsed
                        (object_at 0) w)).
Proof.
  cbv zeta.
  assert (H : flag_sound (Demo.a_world Demo.twins Demo.real_run None))
    by (intros H; discriminate H).
  split; [exact H|].
  exact (@migrateAll_keeps_memo_sound Demo.U Demo.run_script
           Demo.script_ends Demo.elapsed
           demo_scripts_keep_ledger demo_commits_keep_ledger (object_at 0)
           (Demo.a_world Demo.twins Demo.real_run None) eq_refl H).
Defined.

Lemma second_run_skips_everything_witness :
  let w := Demo.a_world Demo.seeded Demo.real_run None in
  let run := Mayflower.migrateAll Demo.run_script Demo.script_ends Demo.elapsed
               (object_at 0) w in
  let scripts := [new_SqlScript Demo.create_sql Demo.create_text;
                  new_SqlScript Demo.seed_sql Demo.seed_text] in
  fst (getAllScripts w) = Return scripts
  /\ exists w2,
       Mayflower.migrateAll Demo.run_script
           Demo.script_ends Demo.elapsed (object_at 0)
         (snd run)
       = (Return (map (fun s => new_MigrationResult (name s)) scripts), w2)
       /\ current (database w2) = current (database (snd run))
       /\ Forall (fun q => is_select q = true) (issued (snd run) w2).
Proof.
  cbv zeta.
  assert (Hs : fst (getAllScripts
                      (Demo.a_world Demo.seeded Demo.real_run None))
               = Return [new_SqlScript Demo.create_sql Demo.create_text;
                         new_SqlScript Demo.seed_sql Demo.seed_text])
    by (vm_compute; reflexivity).
  split; [exact Hs|].
  apply (@second_run_skips_everything Demo.U Demo.run_script
      Demo.script_ends Demo.elapsed
           demo_scripts_keep_ledger 0
           (Demo.a_world Demo.seeded Demo.real_run None)
           (snd (Mayflower.migrateAll Demo.run_script
               Demo.script_ends Demo.elapsed
                   (object_at 0)
                   (Demo.a_world Demo.seeded Demo.real_run None)))
           [new_SqlScript Demo.create_sql Demo.create_text;
            new_SqlScript Demo.seed_sql Demo.seed_text]
           match
             fst (Mayflower.migrateAll Demo.run_script
                 Demo.script_ends Demo.elapsed
                    (object_at 0)
                    (Demo.a_world Demo.seeded Demo.real_run None))
           with
           | Return rs => rs
           | Throw _ => []
           end).
  - cbn; lia.
  - reflexivity.
  - reflexivity.
  - intros rs H. discriminate H.
  - exact Hs.
  - apply distinct_NoDup. vm_compute; reflexivity.
  - apply distinct_NoDup. vm_compute; reflexivity.
  - vm_compute; reflexivity.
Defined.

Lemma nothing_to_migrate_witness :
  let blank := mkFs (Some [js "README.md"; js "003_blank.sql"])
                    (readfile Demo.seeded) in
  let w := Demo.a_world blank Demo.real_run None in
  let run := Mayflower.migrateAll Demo.run_script Demo.script_ends Demo.elapsed
               not_an_object w in
  fst (getAllScripts w) = Return []
  /\ fst run = Return []
  /\ issued w (snd run) = []
  /\ ledger_of (snd run) = None.
Proof.
  cbv zeta.
  assert (H : fst (getAllScripts
                     (Demo.a_world
                        (mkFs (Some [js "README.md"; js "003_blank.sql"])
                              (readfile Demo.seeded))
                        Demo.real_run None))
              = Return (@nil SqlScript))
    by (vm_compute; reflexivity).
  split; [exact H|].
  destruct (@nothing_to_migrate Demo.U Demo.run_script
      Demo.script_ends Demo.elapsed
              not_an_object
              (Demo.a_world
                 (mkFs (Some [js "README.md"; js "003_blank.sql"])
                       (readfile Demo.seeded))
                 Demo.real_run None) H)
    as (H1 & H2 & _).
  split; [exact H1|]. split; [exact H2|]. vm_compute; reflexivity.
Defined.

Lemma failed_batch_keeps_earlier_scripts_witness :
  let files :=
    mkFs (Some [js "c.sql"; Demo.b_sql])
         (fun n => if str_eqb n Demo.b_sql then Some Demo.select_2
                   else if str_eqb n (js "c.sql") then Some (js "FAIL;")
                   else None) in
  let b := new_SqlScript Demo.b_sql Demo.select_2 in
  let c := new_SqlScript (js "c.sql") (js "FAIL;") in
  let w := Demo.a_world files Demo.real_run None in
  let run := Mayflower.migrate_each Demo.run_script
      Demo.script_ends Demo.elapsed 0 [b] [] w in
  let e := DbError (script_error (js "syntax error")) in
  exists w',
    Mayflower.migrate_each Demo.run_script
        Demo.script_ends Demo.elapsed 0 ([b] ++ [c]) [] w
    = (Throw e, w')
    /\ all_recorded [b] w'
    /\ txn (database w') = None.
Proof.
  cbv zeta. eexists.
  eapply (@failed_batch_keeps_earlier_scripts Demo.U Demo.run_script
            Demo.script_ends Demo.elapsed
            demo_scripts_keep_ledger demo_commits_keep_ledger 0
            [new_SqlScript Demo.b_sql Demo.select_2] []
            (new_SqlScript (js "c.sql") (js "FAIL;"))).
  - reflexivity.
  - reflexivity.
  - intros rs H. discriminate H.
  - apply distinct_NoDup. vm_compute; reflexivity.
  - apply distinct_NoDup. vm_compute; reflexivity.
  - vm_compute; reflexivity.
  - vm_compute; reflexivity.
Defined.

End RunsMore.

(* ====================================================================== *)
(** * Scenarios *)
(* ====================================================================== *)

(** Runs of the embedding on the concrete database. *)

Module Scenarios.

Import Pg Mayflower.

Example sort_is_lexicographic :
  sort [js "002_x.sql"; js "001_y.sql"; js "010_z.sql"; js "9.sql"; js "10.sql"]
  = [js "001_y.sql"; js "002_x.sql"; js "010_z.sql"; js "10.sql"; js "9.sql"].
Proof. vm_compute. reflexivity. Qed.

Example sqlExt_examples :
  map sqlExt_test
      [js "a.sql"; js ".sql"; js "a.SQL"; js "a.sql.bak"; js "sql";
       LF :: js ".sql"; js "a" ++ LF :: js "b.sql"]
  = [true; false; false; false; false; false; true].
Proof. vm_compute. reflexivity. Qed.

Example trim_example :
  trim ([32; LF; 0xFEFF]%N ++ js "SELECT 1;" ++ [32; CR; LF; 0x2028]%N)
  = js "SELECT 1;".
Proof. vm_compute. reflexivity. Qed.

Example replace_crlf_example :
  replace_crlf (js "a" ++ [CR; LF] ++ js "b" ++ [CR] ++ js "c" ++ [LF; CR; CR; LF])
  = js "a" ++ [LF] ++ js "b" ++ [CR] ++ js "c" ++ [LF; CR; LF].
Proof. vm_compute. reflexivity. Qed.

Example getHash_example :
  getHash Demo.select_1 = js "71568061-b297-0a4b-7c51-60fe75356e10".
Proof. vm_compute. reflexivity. Qed.

(** A first run on a fresh database applies both scripts and records
    them; the blank script is not loaded. *)
Example first_run :
  let run := migrateAll Demo.run_script
      Demo.script_ends Demo.elapsed (object_at 0)
               (Demo.a_world Demo.seeded Demo.real_run None) in
  fst run
  = Return [mkMigrationResult Demo.create_sql false 7
              (js "Successfully migrated 001_create.sql");
            mkMigrationResult Demo.seed_sql false 7
              (js "Successfully migrated 002_seed.sql")]
  /\ ledger_of (snd run)
     = Some [Row (getHash (js "CREATE TABLE t(id int);" ++ [LF]))
                 Demo.create_sql 1000 7;
             Row (getHash Demo.seed_text) Demo.seed_sql 1000 7]
  /\ user (current (database (snd run)))
     = [js "CREATE TABLE t(id int);"; Demo.seed_text]
  /\ ended (database (snd run)) = true.
Proof. vm_compute. repeat split. Qed.

(** A second run skips both. *)
Example second_run :
  let first := migrateAll Demo.run_script
      Demo.script_ends Demo.elapsed (object_at 0)
                 (Demo.a_world Demo.seeded Demo.real_run None) in
  let run := migrateAll Demo.run_script
      Demo.script_ends Demo.elapsed (object_at 0)
               (snd first) in
  fst run
  = Return [mkMigrationResult Demo.create_sql true 0 [];
            mkMigrationResult Demo.seed_sql true 0 []]
  /\ ledger_of (snd run) = ledger_of (snd first)
  /\ user (current (database (snd run)))
     = user (current (database (snd first))).
Proof. vm_compute. repeat split. Qed.

(** A changed [a.sql] with [force] replaces the row of that filename. *)
Example forced_run_updates_row :
  let run := migrate Demo.run_script
      Demo.script_ends Demo.elapsed 0 Demo.script_a2
               (Demo.a_world Demo.twins Demo.forced_run (Some [Demo.row_a])) in
  fst run
  = Return (mkMigrationResult Demo.a_sql false 7
              (js "Successfully migrated a.sql"))
  /\ ledger_of (snd run) = Some [Row Demo.h2 Demo.a_sql 1000 7].
Proof. vm_compute. repeat split. Qed.

(** A preview on a fresh database creates no table and keeps nothing. *)
Example preview_on_fresh_database :
  let run := migrateAll Demo.run_script
      Demo.script_ends Demo.elapsed (object_at 0)
               (Demo.a_world Demo.seeded Demo.dry_run None) in
  ledger_of (snd run) = None
  /\ user (current (database (snd run))) = []
  /\ filter is_script (log (database (snd run)))
     = [QScript (js "CREATE TABLE t(id int);"); QScript Demo.seed_text].
Proof. vm_compute. repeat split. Qed.

End Scenarios.
